(** * PrintInboxHub2: the request store of the 3D Print Inbox

    A shallow embedding of the logic of [src/PrintInboxHub2.jsx]: the pure
    helpers ([toCSV], [triageBuckets], [sortRequests]), the query of the
    [filtered] memo, the event handlers of the [PrintInboxHub] component
    ([submitRequest], [retrySync], [refreshFromSheet], [updateRequest]) and
    its two persistence effects.

    The JavaScript runtime the component calls into is modelled first,
    following ECMA-262: strings as sequences of code units, numbers with
    [NaN] and the infinities, [Array.prototype.sort] and the contract
    ECMA-262 gives it, the calendar of [Date], JSON values and the outcome
    of a [fetch].  What the host decides
    ([Date.parse], the local time offset, [toISOString], [toLowerCase]) is a
    parameter of the model, [Runtime]; two concrete hosts serve the
    examples.

    A record is read through its ten fields; an asynchronous handler is
    split at its [await], the outcome of the awaited [fetch] being an
    argument of the second half.

    The definitions come first, the properties after them. *)

From Stdlib Require Import List ZArith NArith Bool Lia String Ascii.
From Stdlib Require Import Permutation Sorted Relations.
Import ListNotations.
Local Open Scope Z_scope.

(* ================================================================== *)
(** * Strings *)

(** A JavaScript string is a sequence of UTF-16 code units. *)
Definition jsstring := list N.

(** String literals of the source, written in ASCII. *)
Definition js (s : string) : jsstring :=
  map N_of_ascii (list_ascii_of_string s).

(** [a === b] on strings. *)
Fixpoint streq (a b : jsstring) : bool :=
  match a, b with
  | [], [] => true
  | x :: a', y :: b' => (x =? y)%N && streq a' b'
  | _, _ => false
  end.

(** The code units [String.prototype.trim] strips: ECMA-262 WhiteSpace and
    LineTerminator. *)
Definition isWhiteSpace (c : N) : bool :=
  ((9 <=? c) && (c <=? 13) || (c =? 32) || (c =? 160) || (c =? 5760)
   || (8192 <=? c) && (c <=? 8202) || (c =? 8232) || (c =? 8233)
   || (c =? 8239) || (c =? 8287) || (c =? 12288) || (c =? 65279))%N.

Fixpoint trimStart (s : jsstring) : jsstring :=
  match s with
  | c :: s' => if isWhiteSpace c then trimStart s' else s
  | [] => []
  end.

Definition trimEnd (s : jsstring) : jsstring := rev (trimStart (rev s)).

Definition trim (s : jsstring) : jsstring := trimEnd (trimStart s).

Fixpoint startsWith (p s : jsstring) : bool :=
  match p, s with
  | [], _ => true
  | x :: p', y :: s' => (x =? y)%N && startsWith p' s'
  | _ :: _, [] => false
  end.

(** [s.includes(t)] *)
Fixpoint includes (s t : jsstring) : bool :=
  startsWith t s || match s with [] => false | _ :: s' => includes s' t end.

(** Truthiness of a string: only the empty string is falsy. *)
Definition nonEmpty (s : jsstring) : bool :=
  match s with [] => false | _ :: _ => true end.

(** Truthiness of a property that is a string or [undefined]. *)
Definition truthy (o : option jsstring) : bool :=
  match o with Some s => nonEmpty s | None => false end.

(** [o] or else the empty string, as in the two cells read with that default. *)
Definition orEmpty (o : option jsstring) : jsstring :=
  match o with Some s => s | None => [] end.

(* ================================================================== *)
(** * Numbers *)

(** The numbers the component computes with are time values and priority
    ranks (integers), the two infinities and [NaN].  Only the sign of a
    difference is ever observed, so differences are kept exact. *)
Inductive Num := NaN | NegInf | Fin (z : Z) | PosInf.

Definition Num_sub (a b : Num) : Num :=
  match a, b with
  | NaN, _ | _, NaN => NaN
  | Fin x, Fin y => Fin (x - y)
  | PosInf, PosInf | NegInf, NegInf => NaN
  | PosInf, _ => PosInf
  | _, PosInf => NegInf
  | NegInf, _ => NegInf
  | _, NegInf => PosInf
  end.

(** [a < b] *)
Definition Num_lt (a b : Num) : bool :=
  match a, b with
  | NaN, _ | _, NaN => false
  | Fin x, Fin y => x <? y
  | NegInf, NegInf | PosInf, PosInf => false
  | NegInf, _ => true
  | _, PosInf => true
  | _, _ => false
  end.

(** [a <= b] *)
Definition Num_le (a b : Num) : bool :=
  match a, b with
  | NaN, _ | _, NaN => false
  | Fin x, Fin y => x <=? y
  | NegInf, _ => true
  | _, PosInf => true
  | _, _ => false
  end.

(** [a === b] on numbers: [NaN] equals nothing. *)
Definition Num_eq (a b : Num) : bool :=
  match a, b with
  | Fin x, Fin y => x =? y
  | NegInf, NegInf | PosInf, PosInf => true
  | _, _ => false
  end.

Definition isNaN (a : Num) : bool :=
  match a with NaN => true | _ => false end.

(* ================================================================== *)
(** * Array.prototype.sort *)

(** ECMA-262 SortCompare turns a comparator result of [NaN] into [+0]; what
    the sort then observes is the sign. *)
Definition SortCompare (v : Num) : comparison :=
  match v with
  | NaN => Eq
  | NegInf => Lt
  | PosInf => Gt
  | Fin z => z ?= 0
  end.

Section ArraySort.
Context {A : Type} (comparefn : A -> A -> Num).

(** [x] is moved past [y] only when the comparator puts it strictly
    after [y]: equal elements keep their order. *)
Fixpoint sortInsert (x : A) (l : list A) : list A :=
  match l with
  | [] => [x]
  | y :: l' =>
      match SortCompare (comparefn x y) with
      | Gt => y :: sortInsert x l'
      | _ => x :: l
      end
  end.

(** The sort is stable (ECMA-262 since ES2019).  It is modelled by stable
    insertion, which for a comparator that is consistent on the elements
    is the array every engine returns ([SortResult_Array_sort]).  For an
    inconsistent comparator ECMA-262 leaves the order to the engine, and
    the insertion stands for one engine among others: a property is stated
    of the code there only as far as it holds of every order the answers of
    the comparator justify. *)
Fixpoint Array_sort (l : list A) : list A :=
  match l with
  | [] => []
  | x :: l' => sortInsert x (Array_sort l')
  end.
End ArraySort.

(** ** What ECMA-262 asks of the sort *)

(** The engine's [sort] is known through its contract.  For a comparator
    that is consistent on the elements, ECMA-262 fixes the result: the same
    elements, none standing after one it must precede, tied elements in
    their original order (the sort is stable since ES2019).  Otherwise the
    order is implementation-defined.  The comparator is read through
    [SortCompare], as every engine reads it, so that an answer of [NaN]
    counts as a tie. *)
Section SortContract.
Context {A : Type} (comparefn : A -> A -> Num).

(** The comparator does not put [a] after [b]. *)
Definition notAfter (a b : A) : Prop := SortCompare (comparefn a b) <> Gt.

(** [a =CF b]: the comparator ties [a] and [b]. *)
Definition ties (a b : A) : bool :=
  match SortCompare (comparefn a b) with Eq => true | _ => false end.

(** A consistent comparator on the values satisfying [dom]: swapping the
    arguments swaps the answer, and the order is transitive.  These two
    give the conditions ECMA-262 lists. *)
Record Consistent (dom : A -> Prop) : Prop := {
  consistent_swap : forall a b, dom a -> dom b ->
    SortCompare (comparefn a b) = CompOpp (SortCompare (comparefn b a));
  consistent_trans : forall a b c, dom a -> dom b -> dom c ->
    notAfter a b -> notAfter b c -> notAfter a c
}.

(** What the array [l] holds after [sort] with a consistent comparator. *)
Record SortResult (l out : list A) : Prop := {
  result_perm : Permutation l out;
  result_order : StronglySorted notAfter out;
  result_stable : forall x, In x l -> filter (ties x) out = filter (ties x) l
}.

(** An answer of the comparator lets [a] stand before [b]: asked for [a]
    against [b] it does not say after, or asked for [b] against [a] it does
    not say before. *)
Definition evidence (a b : A) : Prop :=
  SortCompare (comparefn a b) <> Gt \/ SortCompare (comparefn b a) <> Lt.

(** An order is justified when every element is linked to its successor by
    a chain of such answers: what a sort that moves elements only on the
    answers of the comparator returns, also for an inconsistent
    comparator. *)
Definition Justified (out : list A) : Prop :=
  Sorted (clos_trans A evidence) out.
End SortContract.

(* ================================================================== *)
(** * Dates *)

(** Time values are milliseconds since the epoch, as in ECMA-262 21.4.1. *)
Definition msPerDay : Z := 86400000.

Definition Day (t : Z) : Z := t / msPerDay.

Definition TimeWithinDay (t : Z) : Z := t mod msPerDay.

Definition DaysInYear (y : Z) : Z :=
  if (y mod 4 =? 0) && (negb (y mod 100 =? 0) || (y mod 400 =? 0))
  then 366 else 365.

Definition DayFromYear (y : Z) : Z :=
  365 * (y - 1970) + (y - 1969) / 4 - (y - 1901) / 100 + (y - 1601) / 400.

(** The largest year whose first day is not after [t]: an estimate from the
    mean year length, corrected by at most one year. *)
Definition YearFromTime (t : Z) : Z :=
  let d := Day t in
  let y := 1970 + (d * 10000) / 3652425 in
  if d <? DayFromYear y then y - 1
  else if DayFromYear (y + 1) <=? d then y + 1
  else y.

Definition DayWithinYear (t : Z) : Z := Day t - DayFromYear (YearFromTime t).

Definition InLeapYear (t : Z) : Z :=
  if DaysInYear (YearFromTime t) =? 366 then 1 else 0.

Definition MonthFromTime (t : Z) : Z :=
  let d := DayWithinYear t in
  let leap := InLeapYear t in
  if d <? 31 then 0
  else if d <? 59 + leap then 1
  else if d <? 90 + leap then 2
  else if d <? 120 + leap then 3
  else if d <? 151 + leap then 4
  else if d <? 181 + leap then 5
  else if d <? 212 + leap then 6
  else if d <? 243 + leap then 7
  else if d <? 273 + leap then 8
  else if d <? 304 + leap then 9
  else if d <? 334 + leap then 10
  else 11.

(** Days of the year before the first day of month [m] (0 = January). *)
Definition monthStart (m leap : Z) : Z :=
  match m with
  | 0 => 0
  | 1 => 31
  | 2 => 59 + leap
  | 3 => 90 + leap
  | 4 => 120 + leap
  | 5 => 151 + leap
  | 6 => 181 + leap
  | 7 => 212 + leap
  | 8 => 243 + leap
  | 9 => 273 + leap
  | 10 => 304 + leap
  | _ => 334 + leap
  end.

Definition DateFromTime (t : Z) : Z :=
  DayWithinYear t - monthStart (MonthFromTime t) (InLeapYear t) + 1.

(** [TimeClip]: a time value out of range is [NaN]. *)
Definition TimeClip (t : Z) : Num :=
  if Z.abs t <=? 8640000000000000 then Fin t else NaN.

(** What the host supplies: [Date.parse] ([None] when the string is not a
    date), the offset of local time from UTC in milliseconds (taken constant
    over the instants compared: no change of offset is modelled),
    [Date.prototype.toISOString] on a valid time value, and
    [String.prototype.toLowerCase]. *)
Record Runtime := {
  Date_parse : jsstring -> option Z;
  LocalTZA : Z;
  toISOString : Z -> jsstring;
  toLowerCase : jsstring -> jsstring
}.

Section DateObject.
Context (rt : Runtime).

Definition LocalTime (t : Z) : Z := t + LocalTZA rt.
Definition UTC (t : Z) : Z := t - LocalTZA rt.

(** [new Date(s)] for a string [s]; a [Date] is represented by its time
    value, [NaN] for an invalid date. *)
Definition newDate (s : jsstring) : Num :=
  match Date_parse rt s with
  | Some t => TimeClip t
  | None => NaN
  end.

(** [new Date(v)] when [v] may be [undefined]. *)
Definition newDateOpt (v : option jsstring) : Num :=
  match v with
  | Some s => newDate s
  | None => NaN
  end.

Definition getFullYear (d : Num) : Num :=
  match d with Fin t => Fin (YearFromTime (LocalTime t)) | _ => NaN end.

Definition getMonth (d : Num) : Num :=
  match d with Fin t => Fin (MonthFromTime (LocalTime t)) | _ => NaN end.

Definition getDate (d : Num) : Num :=
  match d with Fin t => Fin (DateFromTime (LocalTime t)) | _ => NaN end.

(** [d.setHours(0, 0, 0, 0)]: local midnight of the day of [d]. *)
Definition setHours0 (d : Num) : Num :=
  match d with
  | Fin t => TimeClip (UTC (Day (LocalTime t) * msPerDay))
  | _ => NaN
  end.
End DateObject.

(** ** A concrete host: UTC-form ISO strings *)

Definition digit (c : N) : option Z :=
  if ((48 <=? c) && (c <=? 57))%N then Some (Z.of_N c - 48) else None.

Fixpoint digits (acc : Z) (s : jsstring) : option Z :=
  match s with
  | [] => Some acc
  | c :: s' =>
      match digit c with
      | Some d => digits (10 * acc + d) s'
      | None => None
      end
  end.

Definition DaysInMonth (y m : Z) : Z :=
  match m with
  | 1 => if DaysInYear y =? 366 then 29 else 28
  | 3 | 5 | 8 | 10 => 30
  | _ => 31
  end.

Definition MakeDay (y m d : Z) : Z :=
  DayFromYear y + monthStart m (if DaysInYear y =? 366 then 1 else 0) + d - 1.

(** [YYYY-MM-DDTHH:mm:ss.sssZ], the format [toISOString] writes, and the
    date-only form [YYYY-MM-DD] (midnight UTC); any other string is not a
    date for this host. *)
Definition parseISO (s : jsstring) : option Z :=
  match s with
  | [y1; y2; y3; y4; 45%N; m1; m2; 45%N; d1; d2; 84%N;
     h1; h2; 58%N; i1; i2; 58%N; s1; s2; 46%N; f1; f2; f3; 90%N] =>
      match digits 0 [y1; y2; y3; y4], digits 0 [m1; m2], digits 0 [d1; d2],
            digits 0 [h1; h2], digits 0 [i1; i2], digits 0 [s1; s2],
            digits 0 [f1; f2; f3] with
      | Some y, Some m, Some d, Some h, Some i, Some sec, Some ms =>
          if (1 <=? m) && (m <=? 12) && (1 <=? d) && (d <=? DaysInMonth y (m - 1))
             && (h <=? 23) && (i <=? 59) && (sec <=? 59)
          then Some (MakeDay y (m - 1) d * msPerDay
                     + h * 3600000 + i * 60000 + sec * 1000 + ms)
          else None
      | _, _, _, _, _, _, _ => None
      end
  | [y1; y2; y3; y4; 45%N; m1; m2; 45%N; d1; d2] =>
      match digits 0 [y1; y2; y3; y4], digits 0 [m1; m2], digits 0 [d1; d2] with
      | Some y, Some m, Some d =>
          if (1 <=? m) && (m <=? 12) && (1 <=? d) && (d <=? DaysInMonth y (m - 1))
          then Some (MakeDay y (m - 1) d * msPerDay)
          else None
      | _, _, _ => None
      end
  | _ => None
  end.

(** The decimal digits of [n], padded to [width] code units. *)
Fixpoint pad (width : nat) (n : Z) : jsstring :=
  match width with
  | O => []
  | S w => pad w (n / 10) ++ [Z.to_N (48 + n mod 10)]
  end.

(** [toISOString] for the years 0000 to 9999. *)
Definition formatISO (t : Z) : jsstring :=
  let ms := TimeWithinDay t in
  pad 4 (YearFromTime t) ++ [45%N] ++ pad 2 (MonthFromTime t + 1) ++ [45%N]
  ++ pad 2 (DateFromTime t) ++ [84%N] ++ pad 2 (ms / 3600000) ++ [58%N]
  ++ pad 2 (ms / 60000 mod 60) ++ [58%N] ++ pad 2 (ms / 1000 mod 60)
  ++ [46%N] ++ pad 3 (ms mod 1000) ++ [90%N].

(** ASCII lower-casing. *)
Definition lowerUnit (c : N) : N :=
  if ((65 <=? c) && (c <=? 90))%N then (c + 32)%N else c.

(** A host in UTC. *)
Definition utcHost : Runtime :=
  {| Date_parse := parseISO; LocalTZA := 0;
     toISOString := formatISO; toLowerCase := map lowerUnit |}.

(** A host three hours behind UTC. *)
Definition westHost : Runtime :=
  {| Date_parse := parseISO; LocalTZA := -10800000;
     toISOString := formatISO; toLowerCase := map lowerUnit |}.

(* ================================================================== *)
(** * Requests *)

(** A request record.  [dueDate] is a string or [undefined]; [priority] and
    [status] are strings, compared as such by the code. *)
Record Request := {
  id : jsstring;
  createdAt : jsstring;
  name : jsstring;
  description : jsstring;
  dueDate : option jsstring;
  priority : jsstring;
  status : jsstring;
  devNotes : jsstring;
  pinned : bool;
  synced : bool
}.

(** [{ ...r, synced: b }] *)
Definition withSynced (b : bool) (r : Request) : Request :=
  {| id := id r; createdAt := createdAt r; name := name r;
     description := description r; dueDate := dueDate r;
     priority := priority r; status := status r; devNotes := devNotes r;
     pinned := pinned r; synced := b |}.

(** ** toCSV *)

Definition headers : list jsstring :=
  [js "createdAt"; js "name"; js "description"; js "dueDate"; js "priority";
   js "status"; js "devNotes"; js "pinned"].

(** [Array.prototype.join] *)
Fixpoint join (sep : jsstring) (l : list jsstring) : jsstring :=
  match l with
  | [] => []
  | [x] => x
  | x :: l' => x ++ sep ++ join sep l'
  end.

Definition QUOTE : N := 34.
Definition COMMA : N := 44.
Definition LF : N := 10.

(** The character class of the test in [esc]: a double quote, a comma or a
    line feed. *)
Definition special (c : N) : bool :=
  ((c =? QUOTE) || (c =? COMMA) || (c =? LF))%N.

(** The [replace] of [esc]: every double quote is written twice. *)
Definition doubleQuotes (str : jsstring) : jsstring :=
  flat_map (fun c => if (c =? QUOTE)%N then [QUOTE; QUOTE] else [c]) str.

Definition esc (val : option jsstring) : jsstring :=
  let str := match val with None => [] | Some v => v end in
  if existsb special str then [QUOTE] ++ doubleQuotes str ++ [QUOTE]
  else str.

(** The cells of one record, before escaping. *)
Definition cells (r : Request) : list jsstring :=
  [createdAt r; name r; description r; orEmpty (dueDate r); priority r;
   status r; devNotes r; if pinned r then js "true" else js "false"].

Definition toCSV (rows : list Request) : jsstring :=
  let lines :=
    join [COMMA] headers
    :: map (fun r => join [COMMA] (map (fun v => esc (Some v)) (cells r))) rows in
  join [LF] lines.

(** ** triageBuckets *)

Record Buckets := { overdue : list Request; dueToday : list Request }.

Section Triage.
Context (rt : Runtime) (now : Z).

(** [const today = new Date(); today.setHours(0, 0, 0, 0);] *)
Definition today : Num := setHours0 rt (Fin now).

Definition isToday (iso : option jsstring) : bool :=
  if negb (truthy iso) then false
  else
    let d := newDateOpt rt iso in
    negb (isNaN d)
    && Num_eq (getFullYear rt d) (getFullYear rt today)
    && Num_eq (getMonth rt d) (getMonth rt today)
    && Num_eq (getDate rt d) (getDate rt today).

Definition isOverdue (r : Request) : bool :=
  if negb (truthy (dueDate r)) then false
  else
    let d := newDateOpt rt (dueDate r) in
    negb (isNaN d) && Num_lt d today && negb (streq (status r) (js "Done")).

Definition triageBuckets (reqs : list Request) : Buckets :=
  {| overdue := filter isOverdue reqs;
     dueToday := filter (fun r => isToday (dueDate r)) reqs |}.
End Triage.

(** ** sortRequests *)

(** [priorityRank[p]] read as a number: a key outside the table gives
    [undefined] (or an inherited member), which is [NaN] under [-]. *)
Definition priorityRank (p : jsstring) : Num :=
  if streq p (js "Low") then Fin 0
  else if streq p (js "Normal") then Fin 1
  else if streq p (js "High") then Fin 2
  else if streq p (js "Urgent") then Fin 3
  else NaN.

Section Sorting.
Context (rt : Runtime).

(** [new Date(x).getTime()] *)
Definition getTime (x : jsstring) : Num := newDate rt x.

(** [a.dueDate ? new Date(a.dueDate).getTime() : Infinity] *)
Definition dueTime (a : Request) : Num :=
  if truthy (dueDate a) then newDateOpt rt (dueDate a) else PosInf.

(** The [switch (sort)] of the comparator. *)
Definition compareBy (sort : jsstring) (a b : Request) : Num :=
  if streq sort (js "oldest") then
    Num_sub (getTime (createdAt a)) (getTime (createdAt b))
  else if streq sort (js "due") then
    Num_sub (dueTime a) (dueTime b)
  else if streq sort (js "priority") then
    Num_sub (priorityRank (priority b)) (priorityRank (priority a))
  else
    Num_sub (getTime (createdAt b)) (getTime (createdAt a)).

(** The comparator handed to [copy.sort]. *)
Definition compareRequests (sort : jsstring) (a b : Request) : Num :=
  if pinned a && negb (pinned b) then Fin (-1)
  else if pinned b && negb (pinned a) then Fin 1
  else compareBy sort a b.

Definition sortRequests (reqs : list Request) (sort : jsstring) : list Request :=
  Array_sort (compareRequests sort) reqs.

(** The predicate of the [filter] in the [filtered] memo; [term] is the
    search box lower-cased and trimmed. *)
Definition matchesFilter (term statusFilter priorityFilter : jsstring)
    (r : Request) : bool :=
  let matchesTerm :=
    negb (nonEmpty term)
    || includes (toLowerCase rt (name r)) term
    || includes (toLowerCase rt (description r)) term in
  let matchesStatus :=
    streq statusFilter (js "All") || streq (status r) statusFilter in
  let matchesPriority :=
    streq priorityFilter (js "All") || streq (priority r) priorityFilter in
  matchesTerm && matchesStatus && matchesPriority.

(** The [filtered] memo of the component: the query over the collection. *)
Definition filtered (requests : list Request)
    (search statusFilter priorityFilter sort : jsstring) : list Request :=
  let term := trim (toLowerCase rt search) in
  let scoped := filter (matchesFilter term statusFilter priorityFilter) requests in
  sortRequests scoped sort.
End Sorting.

(* ================================================================== *)
(** * JSON values and fetch *)

(** A parsed JSON document.  An object is the list of its members, the first
    binding of a key being the one read. *)
#[warnings="-register-all"]
Inductive JSON :=
| JNull
| JBool (b : bool)
| JNumber (z : Z)
| JString (s : jsstring)
| JArray (items : list JSON)
| JObject (members : list (jsstring * JSON)).

Fixpoint lookup (k : jsstring) (members : list (jsstring * JSON)) : option JSON :=
  match members with
  | [] => None
  | (k', v) :: rest => if streq k' k then Some v else lookup k rest
  end.

(** [v?.k] for a key that no primitive or array carries: [None] is
    [undefined]. *)
Definition getProp (v : JSON) (k : jsstring) : option JSON :=
  match v with
  | JObject members => lookup k members
  | _ => None
  end.

Definition ToBoolean (v : option JSON) : bool :=
  match v with
  | None | Some JNull => false
  | Some (JBool b) => b
  | Some (JNumber z) => negb (z =? 0)
  | Some (JString s) => nonEmpty s
  | Some (JArray _) | Some (JObject _) => true
  end.

Definition isArray (v : option JSON) : bool :=
  match v with Some (JArray _) => true | _ => false end.

Definition items (v : option JSON) : list JSON :=
  match v with Some (JArray l) => l | _ => [] end.

Definition stringProp (v : JSON) (k : jsstring) : jsstring :=
  match getProp v k with Some (JString s) => s | _ => [] end.

(** A row of JSON read through the fields the component uses; a field that
    is not a string reads as empty (absent, for [dueDate]).  The reading is
    exact on the rows the component itself writes for its records
    ([JSON_of_Request]); the component keeps any other row as it comes, and
    such a row is outside the typed collection of this file. *)
Definition Request_of_JSON (v : JSON) : Request :=
  {| id := stringProp v (js "id");
     createdAt := stringProp v (js "createdAt");
     name := stringProp v (js "name");
     description := stringProp v (js "description");
     dueDate := match getProp v (js "dueDate") with
                | Some (JString s) => Some s
                | _ => None
                end;
     priority := stringProp v (js "priority");
     status := stringProp v (js "status");
     devNotes := stringProp v (js "devNotes");
     pinned := ToBoolean (getProp v (js "pinned"));
     synced := ToBoolean (getProp v (js "synced")) |}.

(** [JSON.stringify(req)], parsed: the row the component sends for a
    record, and stores.  [undefined] members are left out. *)
Definition JSON_of_Request (r : Request) : JSON :=
  JObject
    ([(js "id", JString (id r));
      (js "createdAt", JString (createdAt r));
      (js "name", JString (name r));
      (js "description", JString (description r))]
     ++ match dueDate r with
        | Some d => [(js "dueDate", JString d)]
        | None => []
        end
     ++ [(js "priority", JString (priority r));
         (js "status", JString (status r));
         (js "devNotes", JString (devNotes r));
         (js "pinned", JBool (pinned r));
         (js "synced", JBool (synced r))]).

(** The response of a [fetch] that resolved.  [opaque] is the response type
    a [no-cors] request gets: status 0, body unreadable.  [json] is what
    [res.json()] resolves to, [None] when it rejects. *)
Record Response := {
  opaque : bool;
  httpStatus : Z;
  json : option JSON
}.

(** How the awaited [fetch] ends: the promise rejects (a network-level
    failure), or it resolves with a response, whatever its status. *)
Inductive FetchOutcome :=
| NetworkError
| Responded (res : Response).

(* ================================================================== *)
(** * The component state *)

Record Toast := { message : jsstring; tone : jsstring }.

(** The [useState] cells the handlers and effects touch.  The generated id
    of a toast and the timer that removes it are left out. *)
Record State := {
  requests : list Request;
  hydrated : bool;
  selected : option Request;
  toasts : list Toast;
  formName : jsstring;
  formDesc : jsstring;
  formDue : jsstring;
  formPriority : jsstring;
  formOpenMobile : bool;
  loadingSubmit : bool;
  loadingRefresh : bool
}.

Definition initialState : State :=
  {| requests := []; hydrated := false; selected := None; toasts := [];
     formName := []; formDesc := []; formDue := []; formPriority := js "Normal";
     formOpenMobile := false; loadingSubmit := false; loadingRefresh := false |}.

Definition setRequests (v : list Request) (s : State) : State :=
  {| requests := v; hydrated := hydrated s; selected := selected s;
     toasts := toasts s; formName := formName s; formDesc := formDesc s;
     formDue := formDue s; formPriority := formPriority s;
     formOpenMobile := formOpenMobile s; loadingSubmit := loadingSubmit s;
     loadingRefresh := loadingRefresh s |}.

Definition setHydrated (v : bool) (s : State) : State :=
  {| requests := requests s; hydrated := v; selected := selected s;
     toasts := toasts s; formName := formName s; formDesc := formDesc s;
     formDue := formDue s; formPriority := formPriority s;
     formOpenMobile := formOpenMobile s; loadingSubmit := loadingSubmit s;
     loadingRefresh := loadingRefresh s |}.

Definition setSelected (v : option Request) (s : State) : State :=
  {| requests := requests s; hydrated := hydrated s; selected := v;
     toasts := toasts s; formName := formName s; formDesc := formDesc s;
     formDue := formDue s; formPriority := formPriority s;
     formOpenMobile := formOpenMobile s; loadingSubmit := loadingSubmit s;
     loadingRefresh := loadingRefresh s |}.

Definition setToasts (v : list Toast) (s : State) : State :=
  {| requests := requests s; hydrated := hydrated s; selected := selected s;
     toasts := v; formName := formName s; formDesc := formDesc s;
     formDue := formDue s; formPriority := formPriority s;
     formOpenMobile := formOpenMobile s; loadingSubmit := loadingSubmit s;
     loadingRefresh := loadingRefresh s |}.

Definition setFormDesc (v : jsstring) (s : State) : State :=
  {| requests := requests s; hydrated := hydrated s; selected := selected s;
     toasts := toasts s; formName := formName s; formDesc := v;
     formDue := formDue s; formPriority := formPriority s;
     formOpenMobile := formOpenMobile s; loadingSubmit := loadingSubmit s;
     loadingRefresh := loadingRefresh s |}.

Definition setFormDue (v : jsstring) (s : State) : State :=
  {| requests := requests s; hydrated := hydrated s; selected := selected s;
     toasts := toasts s; formName := formName s; formDesc := formDesc s;
     formDue := v; formPriority := formPriority s;
     formOpenMobile := formOpenMobile s; loadingSubmit := loadingSubmit s;
     loadingRefresh := loadingRefresh s |}.

Definition setFormOpenMobile (v : bool) (s : State) : State :=
  {| requests := requests s; hydrated := hydrated s; selected := selected s;
     toasts := toasts s; formName := formName s; formDesc := formDesc s;
     formDue := formDue s; formPriority := formPriority s;
     formOpenMobile := v; loadingSubmit := loadingSubmit s;
     loadingRefresh := loadingRefresh s |}.

Definition setLoadingSubmit (v : bool) (s : State) : State :=
  {| requests := requests s; hydrated := hydrated s; selected := selected s;
     toasts := toasts s; formName := formName s; formDesc := formDesc s;
     formDue := formDue s; formPriority := formPriority s;
     formOpenMobile := formOpenMobile s; loadingSubmit := v;
     loadingRefresh := loadingRefresh s |}.

Definition setLoadingRefresh (v : bool) (s : State) : State :=
  {| requests := requests s; hydrated := hydrated s; selected := selected s;
     toasts := toasts s; formName := formName s; formDesc := formDesc s;
     formDue := formDue s; formPriority := formPriority s;
     formOpenMobile := formOpenMobile s; loadingSubmit := loadingSubmit s;
     loadingRefresh := v |}.

(** [pushToast({ message, tone })] *)
Definition pushToast (msg tn : jsstring) (s : State) : State :=
  setToasts (toasts s ++ [{| message := msg; tone := tn |}]) s.

(** The object handed to [updateRequest]: the properties it carries. *)
Record Changes := {
  c_status : option jsstring;
  c_priority : option jsstring;
  c_devNotes : option jsstring;
  c_pinned : option bool;
  c_synced : option bool
}.

Definition orKeep {A : Type} (c : option A) (old : A) : A :=
  match c with Some v => v | None => old end.

(** [{ ...r, ...changes }] *)
Definition merge (r : Request) (c : Changes) : Request :=
  {| id := id r; createdAt := createdAt r; name := name r;
     description := description r; dueDate := dueDate r;
     priority := orKeep (c_priority c) (priority r);
     status := orKeep (c_status c) (status r);
     devNotes := orKeep (c_devNotes c) (devNotes r);
     pinned := orKeep (c_pinned c) (pinned r);
     synced := orKeep (c_synced c) (synced r) |}.

(* ================================================================== *)
(** * The handlers *)

(** Where [submitRequest] stands when it returns or reaches its [await]. *)
Inductive Submit :=
| SubmitInvalid                  (* returned after a validation toast *)
| SubmitThrew                    (* [toISOString] threw on an invalid due date *)
| SubmitLocal                    (* no endpoint: done *)
| SubmitPushing (newReq : Request).  (* the POST is in flight *)

Section Handlers.
Context (rt : Runtime).
(** The module constant of that name; the empty string disables sync. *)
Context (SHEETS_ENDPOINT : jsstring).

(** [prev.map((r) => (r.id === i ? { ...r, synced: b } : r))] *)
Definition markSynced (i : jsstring) (b : bool) (prev : list Request) : list Request :=
  map (fun r => if streq (id r) i then withSynced b r else r) prev.

(** [formDue ? new Date(formDue).toISOString() : undefined]; the outer
    [None] is the [RangeError] of an invalid date. *)
Definition dueOfForm (due : jsstring) : option (option jsstring) :=
  if nonEmpty due then
    match newDate rt due with
    | Fin t => Some (Some (toISOString rt t))
    | _ => None
    end
  else Some None.

(** [submitRequest] up to its [await]; [newId] is the value of [uuid()]
    and [now] the time value of [new Date()]. *)
Definition submitRequest_begin (newId : jsstring) (now : Z) (s : State)
    : Submit * State :=
  if negb (nonEmpty (trim (formName s))) then
    (SubmitInvalid, pushToast (js "Name is required") (js "error") s)
  else if negb (nonEmpty (trim (formDesc s))) then
    (SubmitInvalid, pushToast (js "Description is required") (js "error") s)
  else
    let s1 := setLoadingSubmit true s in
    match dueOfForm (formDue s) with
    | None => (SubmitThrew, s1)
    | Some due =>
        let newReq :=
          {| id := newId;
             createdAt := toISOString rt now;
             name := trim (formName s);
             description := trim (formDesc s);
             dueDate := due;
             priority := formPriority s;
             status := js "New";
             devNotes := [];
             pinned := false;
             synced := negb (nonEmpty SHEETS_ENDPOINT) |} in
        let s2 := setRequests (newReq :: requests s1) s1 in
        let s3 := setFormDue [] (setFormDesc [] s2) in
        let s4 := pushToast (js "Request added") (js "success") s3 in
        if negb (nonEmpty SHEETS_ENDPOINT) then
          (SubmitLocal, setFormOpenMobile false (setLoadingSubmit false s4))
        else (SubmitPushing newReq, s4)
    end.

(** [submitRequest] from the settling of its [fetch] on: the [try], the
    [catch] and the [finally].  [s] is the state at that moment. *)
Definition submitRequest_settle (newReq : Request) (net : FetchOutcome)
    (s : State) : State :=
  let s1 :=
    match net with
    | Responded _ =>
        setRequests (markSynced (id newReq) true (requests s)) s
    | NetworkError =>
        pushToast (js "Failed to sync. You can retry.") (js "error")
          (setRequests (markSynced (id newReq) false (requests s)) s)
    end in
  setFormOpenMobile false (setLoadingSubmit false s1).

(** The whole handler when nothing else happens while the POST is in
    flight. *)
Definition submitRequest (newId : jsstring) (now : Z) (net : FetchOutcome)
    (s : State) : State :=
  match submitRequest_begin newId now s with
  | (SubmitPushing newReq, s') => submitRequest_settle newReq net s'
  | (_, s') => s'
  end.

(** [retrySync(req)], with the outcome of its [fetch]. *)
Definition retrySync (req : Request) (net : FetchOutcome) (s : State) : State :=
  if negb (nonEmpty SHEETS_ENDPOINT) then s
  else
    match net with
    | Responded _ =>
        pushToast (js "Synced") (js "success")
          (setRequests (markSynced (id req) true (requests s)) s)
    | NetworkError => pushToast (js "Sync failed") (js "error") s
    end.

(** [refreshFromSheet] up to its [await]; [true] when a GET was sent. *)
Definition refreshFromSheet_begin (s : State) : bool * State :=
  if negb (nonEmpty SHEETS_ENDPOINT) then
    (false, pushToast (js "Add SHEETS_ENDPOINT to enable refresh") (js "error") s)
  else (true, setLoadingRefresh true s).

(** [refreshFromSheet] from the settling of its [fetch] on. *)
Definition refreshFromSheet_settle (net : FetchOutcome) (s : State) : State :=
  let failed := pushToast (js "Refresh failed") (js "error") s in
  let s1 :=
    match net with
    | NetworkError => failed
    | Responded res =>
        match json res with
        | None => failed
        | Some data =>
            let rows := getProp data (js "rows") in
            if negb (ToBoolean rows) || negb (isArray rows) then failed
            else
              pushToast (js "Inbox refreshed") (js "success")
                (setRequests
                   (map (fun r => withSynced true (Request_of_JSON r)) (items rows))
                   s)
        end
    end in
  setLoadingRefresh false s1.

Definition updateRequest (i : jsstring) (changes : Changes) (s : State) : State :=
  let s1 :=
    setRequests
      (map (fun r => if streq (id r) i then merge r changes else r) (requests s)) s in
  setSelected
    (match selected s1 with
     | Some prev => if streq (id prev) i then Some (merge prev changes) else Some prev
     | None => None
     end) s1.
End Handlers.

(* ================================================================== *)
(** * The persistence effects *)

(** The slot [print-inbox-requests] of [localStorage], seen through what
    [getItem] and [JSON.parse] make of it. *)
Inductive Slot :=
| SlotEmpty                        (* [null] or the empty string *)
| SlotCorrupt                      (* [JSON.parse] throws *)
| SlotOther                        (* parses, but not to an array *)
| SlotRows (rows : list Request).  (* parses to an array of records *)

(** A queued state update. *)
Inductive Update :=
| SetRequests (f : list Request -> list Request)
| SetHydrated (b : bool).

Definition applyUpdate (s : State) (u : Update) : State :=
  match u with
  | SetRequests f => setRequests (f (requests s)) s
  | SetHydrated b => setHydrated b s
  end.

(** An effect waiting to run, closed over the values of the render that
    scheduled it. *)
Inductive Effect :=
| LoadEffect
| PersistEffect (reqs : list Request) (hyd : bool).

(** What an execution does that the ordering claim speaks of. *)
Inductive Event :=
| Loaded
| Rendered (reqs : list Request) (hyd : bool)
| Saved (reqs : list Request).

(** A mounted component: the state of its last render, the updates queued
    since, the effects not yet run, the storage slot, and the events so far
    (latest first). *)
Record Hub := {
  rendered : State;
  queue : list Update;
  effects : list Effect;
  slot : Slot;
  history : list Event
}.

(** The updates of the first effect: [setRequests(parsed)] when the slot
    holds an array, then [setHydrated(true)]. *)
Definition loadUpdates (sl : Slot) : list Update :=
  match sl with
  | SlotRows rows => [SetRequests (fun _ => rows); SetHydrated true]
  | _ => [SetHydrated true]
  end.

(** The first render, with both effects scheduled in source order. *)
Definition mount (sl : Slot) : Hub :=
  {| rendered := initialState; queue := [];
     effects := [LoadEffect; PersistEffect [] false];
     slot := sl; history := [Rendered [] false] |}.

(** Run the next scheduled effect. *)
Definition runEffect (h : Hub) : Hub :=
  match effects h with
  | [] => h
  | LoadEffect :: rest =>
      {| rendered := rendered h; queue := queue h ++ loadUpdates (slot h);
         effects := rest; slot := slot h; history := Loaded :: history h |}
  | PersistEffect reqs hyd :: rest =>
      if negb hyd then
        {| rendered := rendered h; queue := queue h; effects := rest;
           slot := slot h; history := history h |}
      else
        {| rendered := rendered h; queue := queue h; effects := rest;
           slot := SlotRows reqs; history := Saved reqs :: history h |}
  end.

(** Render again: the queued updates are applied in order, and the second
    effect is scheduled with the new values of its dependencies (on every
    render, which is at least as often as the dependency array asks). *)
Definition render (h : Hub) : Hub :=
  match queue h with
  | [] => h
  | _ :: _ =>
      let s := fold_left applyUpdate (queue h) (rendered h) in
      {| rendered := s; queue := [];
         effects := effects h ++ [PersistEffect (requests s) (hydrated s)];
         slot := slot h;
         history := Rendered (requests s) (hydrated s) :: history h |}
  end.

(** A handler changes the collection. *)
Definition mutate (f : list Request -> list Request) (h : Hub) : Hub :=
  {| rendered := rendered h; queue := queue h ++ [SetRequests f];
     effects := effects h; slot := slot h; history := history h |}.

(** [StrictMode] runs the effects of the current render once more. *)
Definition remount (h : Hub) : Hub :=
  {| rendered := rendered h; queue := queue h;
     effects := effects h
                ++ [LoadEffect;
                    PersistEffect (requests (rendered h)) (hydrated (rendered h))];
     slot := slot h; history := history h |}.

Inductive Action :=
| RunEffect
| Render
| Mutate (f : list Request -> list Request)
| Remount.

Definition step (h : Hub) (a : Action) : Hub :=
  match a with
  | RunEffect => runEffect h
  | Render => render h
  | Mutate f => mutate f h
  | Remount => remount h
  end.

(** An execution: any interleaving of the actions after the mount. *)
Definition run (sl : Slot) (acts : list Action) : Hub :=
  fold_left step acts (mount sl).

(** The collection the first effect hands to [setRequests], or the empty
    collection the component starts with. *)
Definition loadResult (sl : Slot) : list Request :=
  match sl with SlotRows rows => rows | _ => [] end.

(** Reading the events oldest first: a save is allowed once a render with
    [hydrated] set has followed a load. *)
Fixpoint savesGuarded (loaded applied : bool) (evs : list Event) : bool :=
  match evs with
  | [] => true
  | Loaded :: rest => savesGuarded true applied rest
  | Rendered _ hyd :: rest => savesGuarded loaded (applied || (loaded && hyd)) rest
  | Saved _ :: rest => applied && savesGuarded loaded applied rest
  end.

Definition isMutate (a : Action) : bool :=
  match a with Mutate _ => true | _ => false end.

(* ================================================================== *)
(** * Reading CSV back *)

(** The reader the export is checked against, after RFC 4180 and the
    readers in use: a field that opens with a double quote runs to the
    closing one, a doubled quote inside standing for one; fields are
    separated by commas; outside quotes a record ends at a line feed, at a
    carriage return, or at a carriage return followed by a line feed; a
    line break at the very end of the input opens no further record. *)
Inductive Mode :=
| FieldStart    (* nothing of the field read yet *)
| Bare          (* inside an unquoted field *)
| Quoted        (* inside a quoted field *)
| QuoteSeen.    (* a quote read inside a quoted field *)

Definition CR : N := 13.

(** [cell] is the field read so far and [row] the fields of the record read
    so far, both latest first. *)
Fixpoint parseCSV_from (m : Mode) (cell : jsstring) (row : list jsstring)
    (input : jsstring) : list (list jsstring) :=
  match input with
  | [] =>
      match m, row with
      | FieldStart, [] => []
      | _, _ => [rev (rev cell :: row)]
      end
  | c :: rest =>
      match m, (c =? QUOTE)%N with
      | Quoted, true => parseCSV_from QuoteSeen cell row rest
      | Quoted, false => parseCSV_from Quoted (c :: cell) row rest
      | QuoteSeen, true => parseCSV_from Quoted (QUOTE :: cell) row rest
      | FieldStart, true => parseCSV_from Quoted [] row rest
      | _, _ =>
          if (c =? COMMA)%N then parseCSV_from FieldStart [] (rev cell :: row) rest
          else if (c =? LF)%N then
            rev (rev cell :: row) :: parseCSV_from FieldStart [] [] rest
          else if (c =? CR)%N then
            rev (rev cell :: row)
            :: match rest with
               | c2 :: rest' =>
                   if (c2 =? LF)%N then parseCSV_from FieldStart [] [] rest'
                   else parseCSV_from FieldStart [] [] rest
               | [] => parseCSV_from FieldStart [] [] rest
               end
          else parseCSV_from Bare (c :: cell) row rest
      end
  end.

Definition parseCSV (input : jsstring) : list (list jsstring) :=
  parseCSV_from FieldStart [] [] input.

(** A record and a table written the way [toCSV] writes its lines. *)
Definition writeLine (row : list jsstring) : jsstring :=
  join [COMMA] (map (fun v => esc (Some v)) row).

Definition writeCSV (table : list (list jsstring)) : jsstring :=
  join [LF] (map writeLine table).

(* ================================================================== *)
(** * Notions the properties are stated with *)

(** Every due date that is present parses to a date. *)
Definition validDue (rt : Runtime) (r : Request) : bool :=
  negb (truthy (dueDate r)) || negb (isNaN (newDateOpt rt (dueDate r))).

(** Among records on the same side of the pinned split, due times ascend,
    an absent due date counting as [Infinity]. *)
Definition dueAscending (rt : Runtime) (out : list Request) : Prop :=
  forall i j a b, (i < j)%nat ->
    nth_error out i = Some a -> nth_error out j = Some b ->
    pinned a = pinned b ->
    Num_le (dueTime rt a) (dueTime rt b) = true.

(** On each side of the pinned split, a record without a due date stands
    after every record with one. *)
Definition absentLast (out : list Request) : Prop :=
  forall i j a b,
    nth_error out i = Some a -> nth_error out j = Some b ->
    pinned a = pinned b ->
    truthy (dueDate a) = false -> truthy (dueDate b) = true ->
    (j < i)%nat.

(** A number that orders: finite, or [Infinity]. *)
Definition ordinary (n : Num) : bool :=
  match n with Fin _ | PosInf => true | _ => false end.

(** The order a comparator of [sortRequests] decides when it subtracts the
    keys of its arguments ([asc]) or of its arguments swapped: pinned
    first, then by key. *)
Definition keyLe (key : Request -> Num) (asc : bool) (a b : Request) : Prop :=
  (pinned a = true /\ pinned b = false)
  \/ (pinned a = pinned b
      /\ (if asc then Num_le (key a) (key b) else Num_le (key b) (key a)) = true).

(** The key the comparator of [sortRequests] subtracts for a sort string,
    and whether it subtracts in ascending order. *)
Definition sortKey (rt : Runtime) (sort : jsstring) (r : Request) : Num :=
  if streq sort (js "oldest") then getTime rt (createdAt r)
  else if streq sort (js "due") then dueTime rt r
  else if streq sort (js "priority") then priorityRank (priority r)
  else getTime rt (createdAt r).

Definition ascending (sort : jsstring) : bool :=
  streq sort (js "oldest") || streq sort (js "due").

(** The sort key of the record is a number that orders: its stamp parses,
    its due date is absent or parses, its priority is one of the four. *)
Definition keyed (rt : Runtime) (sort : jsstring) (r : Request) : bool :=
  ordinary (sortKey rt sort r).

(** Every pinned record stands before every unpinned record. *)
Definition pinnedFirst (out : list Request) : Prop :=
  forall i j a b,
    nth_error out i = Some a -> nth_error out j = Some b ->
    pinned a = true -> pinned b = false -> (i < j)%nat.

(** What the claim on pushes counts as a failed push: the fetch rejects, or
    it resolves with an opaque response. *)
Definition pushFailed (net : FetchOutcome) : bool :=
  match net with
  | NetworkError => true
  | Responded res => opaque res
  end.

(** What the claim on refreshes counts as a failed pull: the fetch rejects,
    the body is not JSON, it has no [rows] member, or [rows] is not a
    list. *)
Definition refreshFailed (net : FetchOutcome) : bool :=
  match net with
  | NetworkError => true
  | Responded res =>
      match json res with
      | None => true
      | Some data =>
          match getProp data (js "rows") with
          | Some (JArray _) => false
          | _ => true
          end
      end
  end.

(** The two flags [savesGuarded] carries, after reading [evs]: a load has
    run, and a render with [hydrated] set has followed one. *)
Fixpoint flags (loaded applied : bool) (evs : list Event) : bool * bool :=
  match evs with
  | [] => (loaded, applied)
  | Loaded :: rest => flags true applied rest
  | Rendered _ hyd :: rest => flags loaded (applied || (loaded && hyd)) rest
  | Saved _ :: rest => flags loaded applied rest
  end.

(** An event that, if it is a save, writes the collection [l]. *)
Definition savesOnly (l : list Request) (e : Event) : Prop :=
  match e with Saved r => r = l | _ => True end.

(** What every reachable state satisfies: the events so far are in order,
    and whatever could lead to a save (a rendered [hydrated], a scheduled
    persist effect that saw it, a queued [setHydrated(true)]) has its cause
    behind it. *)
Record Ordered (h : Hub) : Prop := {
  ordered_saves : savesGuarded false false (rev (history h)) = true;
  ordered_rendered :
    hydrated (rendered h) = true ->
    snd (flags false false (rev (history h))) = true;
  ordered_effects :
    forall reqs, In (PersistEffect reqs true) (effects h) ->
    snd (flags false false (rev (history h))) = true;
  ordered_queue :
    In (SetHydrated true) (queue h) ->
    fst (flags false false (rev (history h))) = true
}.

(** The queue holds only the updates of load effects that read [L]. *)
Definition loads (L : list Request) (q : list Update) : Prop :=
  exists sls, Forall (fun sl => loadResult sl = L) sls
              /\ q = flat_map loadUpdates sls.

(** The collection is the empty one of the first render or the one loaded,
    and it is the one loaded once [hydrated] is set. *)
Definition fresh (L : list Request) (s : State) : Prop :=
  (requests s = [] \/ requests s = L)
  /\ (hydrated s = true -> requests s = L).

(** What every state reached without a handler satisfies: slot, saves,
    render, effects and queue all carry the loaded collection [L]. *)
Record Faithful (L : list Request) (h : Hub) : Prop := {
  faithful_slot : loadResult (slot h) = L;
  faithful_saves : Forall (savesOnly L) (history h);
  faithful_rendered : fresh L (rendered h);
  faithful_effects :
    forall reqs, In (PersistEffect reqs true) (effects h) -> reqs = L;
  faithful_queue : loads L (queue h)
}.

(** Where the reader stands once a field [v] is complete and the input
    goes on with [k]: at the end, after a comma, or after a line feed. *)
Definition finish (v : jsstring) (row : list jsstring) (k : jsstring)
    : list (list jsstring) :=
  match k with
  | [] => [rev (v :: row)]
  | c :: k' =>
      if (c =? COMMA)%N then parseCSV_from FieldStart [] (v :: row) k'
      else rev (v :: row) :: parseCSV_from FieldStart [] [] k'
  end.

(** After a field the input ends, or goes on with a comma or a line
    feed. *)
Definition follows (k : jsstring) : Prop :=
  match k with
  | [] => True
  | c :: _ => c = COMMA \/ c = LF
  end.

(** The string holds the code unit. *)
Definition holds (c : N) (v : jsstring) : bool := existsb (N.eqb c) v.

(** A field whose carriage returns, if it has any, come with a comma, a
    double quote or a line feed. *)
Definition carriageFree (v : jsstring) : bool :=
  negb (holds 13 v) || holds 34 v || holds 44 v || holds 10 v.

(** Every text field of the record is such a field. *)
Definition carriageSafe (r : Request) : bool :=
  forallb carriageFree
    [createdAt r; name r; description r;
     match dueDate r with Some d => d | None => [] end;
     priority r; status r; devNotes r].

(** A record the reader can tell from the end of the input: it has a
    field, and its last field is not empty. *)
Definition closedRecord (row : list jsstring) : Prop :=
  row <> [] /\ last row [] <> [].

(** The fields of a record that no handler rewrites. *)
Definition identity (r : Request) :=
  (id r, createdAt r, name r, description r, dueDate r).

(** The record as the form describes it. *)
Definition newRequest (rt : Runtime) (SHEETS_ENDPOINT newId : jsstring) (now : Z)
    (due : option jsstring) (s : State) : Request :=
  {| id := newId; createdAt := toISOString rt now;
     name := trim (formName s); description := trim (formDesc s);
     dueDate := due; priority := formPriority s; status := js "New";
     devNotes := []; pinned := false;
     synced := negb (nonEmpty SHEETS_ENDPOINT) |}.

(** The schedule of a mount: both effects, the render they cause, and the
    effect of that render. *)
Definition startup : list Action := [RunEffect; RunEffect; Render; RunEffect].

(* ================================================================== *)
(** * The rest of the component *)

(** ** The tables of the module *)

Definition statuses : list jsstring :=
  [js "New"; js "In Progress"; js "Done"; js "Archived"].

(** ** useToasts *)

(** The hook keeps toasts of the shape [{ id, message, tone }].  [push]
    appends one under a generated id and arms a timer whose callback is the
    filter of [remove] at that id. *)
Module useToasts.

Record Item := { id : jsstring; message : jsstring; tone : jsstring }.

(** [setToasts((t) => [...t, { ...toast, id }])]; [newId] is the value of
    [uuid()]. *)
Definition push (newId : jsstring) (toast : Toast) (t : list Item) : list Item :=
  let 'Build_Toast msg tn := toast in
  t ++ [{| id := newId; message := msg; tone := tn |}].

(** [setToasts((t) => t.filter((x) => x.id !== id))]: the close button of
    a toast, and the callback of its timer. *)
Definition remove (i : jsstring) (t : list Item) : list Item :=
  filter (fun x => negb (streq (id x) i)) t.

End useToasts.

(** ** useEscClose and the selection of a card *)

(** [!!selected || formOpenMobile]: whether the key listener is attached. *)
Definition escEnabled (s : State) : bool :=
  match selected s with Some _ => true | None => false end || formOpenMobile s.

(** The [onClose] handed to the hook. *)
Definition onClose (s : State) : State :=
  setFormOpenMobile false (setSelected None s).

(** A [keydown] on the window, with the [key] of the event. *)
Definition keydown (key : jsstring) (s : State) : State :=
  if escEnabled s then
    if streq key (js "Escape") then onClose s else s
  else s.

(** A click on the card of [req]. *)
Definition cardClick (req : Request) (s : State) : State :=
  setSelected (Some req) s.

(** A [keydown] on the card of [req]. *)
Definition cardKeyDown (key : jsstring) (req : Request) (s : State) : State :=
  if streq key (js "Enter") || streq key (js " ") then setSelected (Some req) s
  else s.

(** ** The quick actions of a card *)

(** One entry of [quickActions]; [target] is the status its [action] hands
    to [updateRequest]. *)
Record QuickAction := {
  label : jsstring;
  target : jsstring;
  show : bool
}.

Definition quickActions (req : Request) : list QuickAction :=
  [ {| label := js "Start"; target := js "In Progress";
       show := streq (status req) (js "New") |};
    {| label := js "Done"; target := js "Done";
       show := negb (streq (status req) (js "Done")) |};
    {| label := js "Archive"; target := js "Archived";
       show := negb (streq (status req) (js "Archived")) |} ].

(** [quickActions.filter((a) => a.show)]: the buttons the card shows. *)
Definition shownActions (req : Request) : list QuickAction :=
  filter show (quickActions req).

(** The object [{ status: v }]. *)
Definition statusChange (v : jsstring) : Changes :=
  {| c_status := Some v; c_priority := None; c_devNotes := None;
     c_pinned := None; c_synced := None |}.

(** [!req.synced && SHEETS_ENDPOINT]: whether the card shows the badge
    and the retry link. *)
Definition showRetry (SHEETS_ENDPOINT : jsstring) (req : Request) : bool :=
  negb (synced req) && nonEmpty SHEETS_ENDPOINT.

(** ** The detail drawer *)

(** A change made in the drawer: [updateRequest(selected.id, changes)];
    the drawer renders nothing when no record is selected. *)
Definition drawerEdit (changes : Changes) (s : State) : State :=
  match selected s with
  | Some sel => updateRequest (id sel) changes s
  | None => s
  end.

(** ** StatsCard and TriageStrip *)

(** [statuses.map((s) => ({ status: s, count: ... }))] *)
Definition counts (requests : list Request) : list (jsstring * nat) :=
  map (fun s => (s, List.length (filter (fun r => streq (status r) s) requests)))
    statuses.

(** ** Running the effects to rest *)

(** Run the next [n] scheduled effects. *)
Fixpoint runEffects (n : nat) (h : Hub) : Hub :=
  match n with
  | O => h
  | S n' => runEffects n' (runEffect h)
  end.

(** Run every effect that is scheduled. *)
Definition drain (h : Hub) : Hub := runEffects (List.length (effects h)) h.

(** Let the component come to rest: the scheduled effects run, the updates
    they queued are rendered, and the effect of that render runs. *)
Definition settle (h : Hub) : Hub := drain (render (drain h)).

(** The values the last scheduled persist effect is closed over. *)
Fixpoint lastPersist (es : list Effect) : option (list Request * bool) :=
  match es with
  | [] => None
  | e :: rest =>
      match lastPersist rest with
      | Some p => Some p
      | None =>
          match e with
          | PersistEffect reqs hyd => Some (reqs, hyd)
          | LoadEffect => None
          end
      end
  end.

(** ** Notions for the rest of the component *)

(** The drawer shows a record of the collection. *)
Definition coherent (s : State) : Prop :=
  match selected s with
  | Some r => In r (requests s)
  | None => True
  end.

(** The sum of the counts of the stats card. *)
Definition countsTotal (requests : list Request) : nat :=
  fold_right (fun c n => (snd c + n)%nat) 0%nat (counts requests).

(** The status is one of the four of the application. *)
Definition knownStatus (r : Request) : bool :=
  existsb (streq (status r)) statuses.

(** The local calendar day of a time value. *)
Definition localDay (rt : Runtime) (t : Z) : Z := Day (LocalTime rt t).

(** What every reachable state satisfies, for the slot to catch up: the
    last persist effect scheduled is closed over the rendered values (and
    when none is scheduled the slot already holds them, once hydrated);
    the load has run or is scheduled; no update unsets [hydrated]. *)
Record Tracked (h : Hub) : Prop := {
  tracked_persist :
    match lastPersist (effects h) with
    | Some (reqs, hyd) =>
        reqs = requests (rendered h) /\ hyd = hydrated (rendered h)
    | None =>
        hydrated (rendered h) = true -> slot h = SlotRows (requests (rendered h))
    end;
  tracked_load :
    In LoadEffect (effects h) \/ In (SetHydrated true) (queue h)
    \/ hydrated (rendered h) = true;
  tracked_queue : ~ In (SetHydrated false) (queue h)
}.

(* ================================================================== *)
(** * Sample data *)

Definition sampleRequest (i : string) (due : option string) (pin : bool) : Request :=
  {| id := js i; createdAt := js "2024-03-01T09:00:00.000Z"; name := js "Alice";
     description := js "Bracket"; dueDate := option_map js due;
     priority := js "Normal"; status := js "New"; devNotes := [];
     pinned := pin; synced := true |}.

Definition noDue : Request := sampleRequest "a" None false.
Definition badDue : Request := sampleRequest "b" (Some "garbage"%string) false.

Definition dueSample : list Request :=
  [sampleRequest "a" (Some "2024-01-05T00:00:00.000Z"%string) false;
   sampleRequest "b" None false;
   sampleRequest "c" (Some "2024-01-01T00:00:00.000Z"%string) false;
   sampleRequest "d" None true;
   sampleRequest "e" (Some "2024-02-01T00:00:00.000Z"%string) true].

(** What a [no-cors] request resolves with. *)
Definition opaqueResponse : Response :=
  {| opaque := true; httpStatus := 0; json := None |}.

(** The body whose [rows] member is the string [not-an-array]. *)
Definition rowsNotArray : FetchOutcome :=
  Responded {| opaque := false; httpStatus := 200;
               json := Some (JObject [(js "rows", JString (js "not-an-array"))]) |}.

Definition endpoint : jsstring := js "https://sheet.example/exec".

Definition blankForm : State :=
  {| requests := [noDue]; hydrated := true; selected := None; toasts := [];
     formName := js "Alice"; formDesc := js "  "; formDue := [];
     formPriority := js "Normal"; formOpenMobile := true;
     loadingSubmit := false; loadingRefresh := false |}.

Definition filledForm : State :=
  {| requests := []; hydrated := true; selected := None; toasts := [];
     formName := js "Alice"; formDesc := js "Bracket"; formDue := [];
     formPriority := js "High"; formOpenMobile := true;
     loadingSubmit := false; loadingRefresh := false |}.

Definition unsyncedStore : State :=
  {| requests := [withSynced false noDue; withSynced false badDue];
     hydrated := true; selected := None; toasts := [];
     formName := []; formDesc := []; formDue := [];
     formPriority := js "Normal"; formOpenMobile := false;
     loadingSubmit := true; loadingRefresh := false |}.

Definition pinChange : Changes :=
  {| c_status := None; c_priority := None; c_devNotes := None;
     c_pinned := Some true; c_synced := None |}.

Definition prioritySample : list Request :=
  [merge (sampleRequest "a" None false)
     {| c_status := None; c_priority := Some (js "Low"); c_devNotes := None;
        c_pinned := None; c_synced := None |};
   merge (sampleRequest "b" None false)
     {| c_status := None; c_priority := Some (js "Urgent"); c_devNotes := None;
        c_pinned := None; c_synced := None |};
   sampleRequest "c" None false;
   sampleRequest "d" None true;
   merge (sampleRequest "e" None false)
     {| c_status := None; c_priority := Some (js "Urgent"); c_devNotes := None;
        c_pinned := None; c_synced := None |}].

Definition isUrgent (r : Request) : bool :=
  streq (priority r) (js "Urgent") && negb (pinned r).

Definition todayForm : State :=
  {| requests := [noDue]; hydrated := true; selected := None; toasts := [];
     formName := js " Alice "; formDesc := js "Bracket"; formDue := js "2024-03-01";
     formPriority := js "High"; formOpenMobile := true;
     loadingSubmit := false; loadingRefresh := false |}.

(** A form whose due field holds text that is no date. *)
Definition badDueForm : State :=
  {| requests := [noDue]; hydrated := true; selected := None; toasts := [];
     formName := js "Alice"; formDesc := js "Bracket"; formDue := js "garbage";
     formPriority := js "High"; formOpenMobile := true;
     loadingSubmit := false; loadingRefresh := false |}.

(** What [updateRequest(i, { pinned: true })] makes of a record. *)
Definition pinIf (i : jsstring) (r : Request) : Request :=
  if streq (id r) i then merge r pinChange else r.

(** A store that holds the sample of due dates. *)
Definition dueStore : State :=
  {| requests := dueSample; hydrated := true; selected := None; toasts := [];
     formName := []; formDesc := []; formDue := [];
     formPriority := js "Normal"; formOpenMobile := false;
     loadingSubmit := false; loadingRefresh := false |}.

(** A response whose body is [{ rows: [...] }] with the rows of [remote]. *)
Definition rowsResponse (remote : list Request) : Response :=
  {| opaque := false; httpStatus := 200;
     json := Some (JObject [(js "rows", JArray (map JSON_of_Request remote))]) |}.

(** A record whose notes hold a carriage return between [a] and [b]. *)
Definition crNote : Request :=
  {| id := js "n"; createdAt := js "2024-03-01T09:00:00.000Z"; name := js "Alice";
     description := js "Bracket"; dueDate := None;
     priority := js "Normal"; status := js "New";
     devNotes := js "a" ++ [CR] ++ js "b";
     pinned := false; synced := true |}.

(** Records whose fields hold a comma, double quotes, a line feed and a
    carriage return before a line feed. *)
Definition csvSample : list Request :=
  [ {| id := js "1"; createdAt := js "2024-03-01T09:00:00.000Z";
       name := js "Doe, Jane"; description := js "a 3" ++ [QUOTE] ++ js " bracket";
       dueDate := Some (js "2024-03-05T00:00:00.000Z");
       priority := js "High"; status := js "New";
       devNotes := js "line one" ++ [CR; LF] ++ js "line two";
       pinned := true; synced := true |};
    {| id := js "2"; createdAt := js "2024-03-02T09:00:00.000Z";
       name := js "Bob"; description := js "first" ++ [LF] ++ js "second";
       dueDate := None; priority := js "Low"; status := js "Done";
       devNotes := []; pinned := false; synced := false |} ].

(* ================================================================== *)
(** * Properties of the runtime model *)

Lemma streq_eq (a b : jsstring) : streq a b = true <-> a = b.
Proof.
  revert b; induction a as [|x a IH]; intros [|y b]; simpl; split;
    try congruence; auto.
  - rewrite andb_true_iff, N.eqb_eq, IH. intros [-> ->]; reflexivity.
  - intros [= -> ->]. rewrite N.eqb_refl. apply IH. reflexivity.
Qed.

Lemma streq_refl (a : jsstring) : streq a a = true.
Proof. apply streq_eq; reflexivity. Qed.

(** The year the model computes is the one ECMA-262 defines: the largest
    year whose first day is not after the time value. *)
Lemma YearFromTime_spec (t : Z) :
  DayFromYear (YearFromTime t) <= Day t < DayFromYear (YearFromTime t + 1).
Proof.
  unfold YearFromTime; cbv zeta.
  set (d := Day t); clearbody d.
  set (y := 1970 + d * 10000 / 3652425).
  assert (Hy : 3652425 * (y - 1970) <= d * 10000 < 3652425 * (y - 1970) + 3652425).
  { subst y. Z.div_mod_to_equations. lia. }
  clearbody y.
  destruct (Z.ltb_spec d (DayFromYear y)).
  - replace (y - 1 + 1) with y by lia.
    unfold DayFromYear in *. Z.div_mod_to_equations. lia.
  - destruct (Z.leb_spec (DayFromYear (y + 1)) d).
    + unfold DayFromYear in *. Z.div_mod_to_equations. lia.
    + lia.
Qed.

(** Year, month and day of the month determine the day number. *)
Lemma Day_of_calendar (t : Z) :
  Day t = DayFromYear (YearFromTime t)
          + monthStart (MonthFromTime t) (InLeapYear t) + DateFromTime t - 1.
Proof. unfold DateFromTime, DayWithinYear. lia. Qed.

Lemma calendar_inj (t u : Z) :
  YearFromTime t = YearFromTime u ->
  MonthFromTime t = MonthFromTime u ->
  DateFromTime t = DateFromTime u ->
  Day t = Day u.
Proof.
  intros Hy Hm Hd.
  rewrite (Day_of_calendar t), (Day_of_calendar u).
  unfold InLeapYear. rewrite Hy, Hm, Hd. reflexivity.
Qed.

(* ================================================================== *)
(** * Properties of the sort *)

Section ArraySortFacts.
Context {A : Type} (comparefn : A -> A -> Num).

Lemma sortInsert_perm (x : A) (l : list A) :
  Permutation (x :: l) (sortInsert comparefn x l).
Proof.
  induction l as [|y l IH]; simpl; auto.
  destruct (SortCompare (comparefn x y)); auto.
  rewrite perm_swap. constructor. exact IH.
Qed.

Lemma Array_sort_perm (l : list A) : Permutation l (Array_sort comparefn l).
Proof.
  induction l as [|x l IH]; simpl; auto.
  rewrite <- sortInsert_perm. constructor. exact IH.
Qed.

Lemma Array_sort_Forall (P : A -> Prop) (l : list A) :
  Forall P l -> Forall P (Array_sort comparefn l).
Proof.
  intros H. eapply Permutation_Forall; [apply Array_sort_perm | exact H].
Qed.

(** Sortedness, for a comparator that decides an order [le] on the
    elements satisfying [dom]. *)
Context (le : A -> A -> Prop) (dom : A -> Prop).
Hypothesis le_trans : forall x y z, le x y -> le y z -> le x z.
Hypothesis cmp_gt : forall x y, dom x -> dom y ->
  SortCompare (comparefn x y) = Gt -> le y x.
Hypothesis cmp_le : forall x y, dom x -> dom y ->
  SortCompare (comparefn x y) <> Gt -> le x y.

Lemma sortInsert_sorted (x : A) (l : list A) :
  dom x -> Forall dom l -> StronglySorted le l ->
  StronglySorted le (sortInsert comparefn x l).
Proof.
  intros Hx Hl Hs. induction Hs as [|y l Hs IH Hy]; simpl.
  - repeat constructor.
  - inversion Hl as [|? ? Dy Dl]; subst.
    destruct (SortCompare (comparefn x y)) eqn:E.
    + constructor; [constructor; assumption|].
      assert (Lxy : le x y) by (apply cmp_le; auto; congruence).
      constructor; [exact Lxy|].
      eapply Forall_impl; [|exact Hy]. intros z Hz. eapply le_trans; eauto.
    + constructor; [constructor; assumption|].
      assert (Lxy : le x y) by (apply cmp_le; auto; congruence).
      constructor; [exact Lxy|].
      eapply Forall_impl; [|exact Hy]. intros z Hz. eapply le_trans; eauto.
    + constructor; [apply IH; assumption|].
      eapply Permutation_Forall; [apply sortInsert_perm|].
      constructor; [apply cmp_gt; auto | exact Hy].
Qed.

Lemma Array_sort_sorted (l : list A) :
  Forall dom l -> StronglySorted le (Array_sort comparefn l).
Proof.
  induction l as [|x l IH]; simpl; intros H.
  - constructor.
  - inversion H; subst. apply sortInsert_sorted; auto.
    apply Array_sort_Forall; assumption.
Qed.
End ArraySortFacts.

(** Stability: elements the comparator never puts one after the other keep
    their order. *)
Section Stability.
Context {A : Type} (comparefn : A -> A -> Num) (P : A -> bool).
Hypothesis tie : forall x y, P x = true -> P y = true ->
  SortCompare (comparefn x y) <> Gt.

Lemma sortInsert_filter (x : A) (l : list A) :
  filter P (sortInsert comparefn x l) = filter P (x :: l).
Proof.
  induction l as [|y l IH]; [reflexivity|].
  cbn [sortInsert]. destruct (SortCompare (comparefn x y)) eqn:E; try reflexivity.
  cbn [filter] in *. rewrite IH.
  destruct (P x) eqn:Px, (P y) eqn:Py; try reflexivity.
  exfalso. apply (tie x y Px Py). exact E.
Qed.

Lemma Array_sort_filter (l : list A) :
  filter P (Array_sort comparefn l) = filter P l.
Proof.
  induction l as [|x l IH]; [reflexivity|].
  cbn [Array_sort]. rewrite sortInsert_filter. cbn [filter]. rewrite IH. reflexivity.
Qed.
End Stability.

(** In a strongly sorted list, an earlier element is below a later one. *)
Lemma StronglySorted_nth {A : Type} (le : A -> A -> Prop) (l : list A) :
  StronglySorted le l ->
  forall i j a b, (i < j)%nat -> nth_error l i = Some a -> nth_error l j = Some b ->
  le a b.
Proof.
  induction 1 as [|x l Hs IH Hx]; intros i j a b Hij Ha Hb.
  - destruct i; discriminate.
  - destruct j as [|j]; [lia|]. simpl in Hb.
    destruct i as [|i]; simpl in Ha.
    + injection Ha as <-. rewrite Forall_forall in Hx. apply Hx.
      eapply nth_error_In; eauto.
    + eapply IH; [|eauto|eauto]. lia.
Qed.

(** ** Sorting by a key *)

Lemma Num_le_trans (x y z : Num) :
  Num_le x y = true -> Num_le y z = true -> Num_le x z = true.
Proof.
  destruct x, y, z; simpl; try congruence.
  rewrite !Z.leb_le. lia.
Qed.

Lemma Num_sub_gt (x y : Num) :
  ordinary x = true -> ordinary y = true ->
  SortCompare (Num_sub x y) = Gt -> Num_le y x = true.
Proof.
  destruct x, y; simpl; try discriminate; auto.
  intros _ _ H. apply Z.compare_gt_iff in H. apply Z.leb_le. lia.
Qed.

Lemma Num_sub_not_gt (x y : Num) :
  ordinary x = true -> ordinary y = true ->
  SortCompare (Num_sub x y) <> Gt -> Num_le x y = true.
Proof.
  destruct x, y; simpl; try discriminate; auto; try congruence.
  intros _ _ H. apply Z.leb_le.
  destruct (Z.compare_spec (z - z0) 0); try lia. congruence.
Qed.

Section KeyOrder.
Context (rt : Runtime) (sort : jsstring) (key : Request -> Num) (asc : bool).
Hypothesis compareBy_key : forall a b,
  compareBy rt sort a b
  = if asc then Num_sub (key a) (key b) else Num_sub (key b) (key a).

Lemma keyLe_trans (x y z : Request) :
  keyLe key asc x y -> keyLe key asc y z -> keyLe key asc x z.
Proof.
  intros [[A B]|[A B]] [[C D]|[C D]]; unfold keyLe.
  - congruence.
  - left; split; congruence.
  - left; split; congruence.
  - right; split; [congruence|].
    destruct asc; eapply Num_le_trans; eauto.
Qed.

Lemma key_gt (x y : Request) :
  ordinary (key x) = true -> ordinary (key y) = true ->
  SortCompare (compareRequests rt sort x y) = Gt -> keyLe key asc y x.
Proof.
  intros Vx Vy. unfold compareRequests, keyLe.
  destruct (pinned x), (pinned y); simpl; try discriminate; auto;
    rewrite compareBy_key; destruct asc; intros H; right; (split; [reflexivity|]);
    apply Num_sub_gt in H; auto.
Qed.

Lemma key_not_gt (x y : Request) :
  ordinary (key x) = true -> ordinary (key y) = true ->
  SortCompare (compareRequests rt sort x y) <> Gt -> keyLe key asc x y.
Proof.
  intros Vx Vy. unfold compareRequests, keyLe.
  destruct (pinned x), (pinned y); simpl; auto; try congruence;
    rewrite compareBy_key; destruct asc; intros H; right; (split; [reflexivity|]);
    apply Num_sub_not_gt in H; auto.
Qed.

(** When every key orders, the sorted collection is in the order of
    [keyLe]. *)
Lemma sortRequests_key_sorted (reqs : list Request) :
  forallb (fun r => ordinary (key r)) reqs = true ->
  StronglySorted (keyLe key asc) (sortRequests rt reqs sort).
Proof.
  intros H. unfold sortRequests.
  apply Array_sort_sorted with (dom := fun r => ordinary (key r) = true).
  - exact keyLe_trans.
  - exact key_gt.
  - exact key_not_gt.
  - apply Forall_forall. rewrite forallb_forall in H. exact H.
Qed.

(** Records on the same side of the pinned split stand in key order. *)
Lemma sortRequests_key_order (reqs : list Request) :
  forallb (fun r => ordinary (key r)) reqs = true ->
  forall i j a b, (i < j)%nat ->
    nth_error (sortRequests rt reqs sort) i = Some a ->
    nth_error (sortRequests rt reqs sort) j = Some b ->
    pinned a = pinned b ->
    (if asc then Num_le (key a) (key b) else Num_le (key b) (key a)) = true.
Proof.
  intros V i j a b Hij Ha Hb E.
  destruct (StronglySorted_nth _ _ (sortRequests_key_sorted reqs V) i j a b Hij Ha Hb)
    as [[A B]|[_ L]]; [congruence|exact L].
Qed.
End KeyOrder.

Lemma dueTime_valid (rt : Runtime) (r : Request) :
  validDue rt r = true -> ordinary (dueTime rt r) = true.
Proof.
  unfold validDue, dueTime. destruct (truthy (dueDate r)); simpl; auto.
  destruct (dueDate r) as [s|]; simpl; [|discriminate].
  unfold newDate. destruct (Date_parse rt s) as [t|]; [|discriminate].
  unfold TimeClip. destruct (Z.abs t <=? 8640000000000000); [|discriminate].
  reflexivity.
Qed.

(** C5, as the claim states it, fails: a record whose due date is present
    but is not a date compares as equal to every record ([NaN] either way
    round), and stays behind the record without a due date that precedes it
    in the collection. *)
Lemma due_absent_last_counterexample :
  sortRequests utcHost [noDue; badDue] (js "due") = [noDue; badDue]
  /\ ~ absentLast (sortRequests utcHost [noDue; badDue] (js "due")).
Proof.
  split; [reflexivity|].
  intros H. specialize (H 0%nat 1%nat noDue badDue eq_refl eq_refl eq_refl eq_refl eq_refl).
  lia.
Qed.

(** C5, amended. When every due date that is present parses to a date, the
    collection sorted by [due] is a rearrangement of the collection in which,
    on each side of the pinned split, due dates ascend and the records
    without a due date come after all those with one. *)
Theorem due_sorted (rt : Runtime) (reqs : list Request) :
  forallb (validDue rt) reqs = true ->
  Permutation reqs (sortRequests rt reqs (js "due"))
  /\ dueAscending rt (sortRequests rt reqs (js "due"))
  /\ absentLast (sortRequests rt reqs (js "due")).
Proof.
  intros V.
  assert (P : Permutation reqs (sortRequests rt reqs (js "due")))
    by apply Array_sort_perm.
  assert (O : forallb (fun r => ordinary (dueTime rt r)) reqs = true).
  { apply forallb_forall. intros r Hr. rewrite forallb_forall in V.
    apply dueTime_valid, V, Hr. }
  assert (S : dueAscending rt (sortRequests rt reqs (js "due"))).
  { intros i j a b Hij Ha Hb E.
    apply (sortRequests_key_order rt (js "due") (dueTime rt) true
             (fun _ _ => eq_refl) reqs O i j a b Hij Ha Hb E). }
  split; [exact P|]. split; [exact S|].
  intros i j a b Ha Hb E Ta Tb.
  assert (Da : dueTime rt a = PosInf) by (unfold dueTime; rewrite Ta; reflexivity).
  assert (Db : exists t, dueTime rt b = Fin t).
  { assert (Ob : ordinary (dueTime rt b) = true).
    { rewrite forallb_forall in O. apply O.
      eapply Permutation_in; [symmetry; exact P|]. eapply nth_error_In; eauto. }
    unfold dueTime in *. rewrite Tb in *.
    destruct (newDateOpt rt (dueDate b)) eqn:N; try discriminate; eauto.
    exfalso. destruct (dueDate b) as [s|]; simpl in N; [|discriminate].
    unfold newDate, TimeClip in N. destruct (Date_parse rt s); [|discriminate].
    destruct (Z.abs z <=? _); discriminate. }
  destruct Db as [t Db].
  destruct (Nat.lt_trichotomy i j) as [Hij|[Hij|Hij]]; [| |exact Hij].
  - specialize (S i j a b Hij Ha Hb E). rewrite Da, Db in S. discriminate.
  - subst j. rewrite Ha in Hb. injection Hb as ->. congruence.
Qed.

(** The amended C5 at a collection of five records, two of them pinned. *)
Lemma due_sorted_witness :
  forallb (validDue utcHost) dueSample = true
  /\ map id (sortRequests utcHost dueSample (js "due"))
     = [js "e"; js "d"; js "c"; js "a"; js "b"]
  /\ dueAscending utcHost (sortRequests utcHost dueSample (js "due"))
  /\ absentLast (sortRequests utcHost dueSample (js "due")).
Proof.
  split; [reflexivity|]. split; [reflexivity|].
  apply (due_sorted utcHost dueSample). reflexivity.
Defined.

(* ================================================================== *)
(** * The contract of the sort *)

Section SortContractFacts.
Context {A : Type} (comparefn : A -> A -> Num) (dom : A -> Prop).
Hypothesis consistent : Consistent comparefn dom.

Lemma ties_refl (x : A) : dom x -> ties comparefn x x = true.
Proof.
  intros D. unfold ties.
  pose proof (consistent_swap _ _ consistent x x D D) as E.
  destruct (SortCompare (comparefn x x)); try reflexivity; discriminate.
Qed.

Lemma ties_both (a b : A) :
  dom a -> dom b ->
  notAfter comparefn a b -> notAfter comparefn b a -> ties comparefn a b = true.
Proof.
  intros Da Db H1 H2. unfold ties, notAfter in *.
  rewrite (consistent_swap _ _ consistent a b Da Db) in *.
  destruct (SortCompare (comparefn b a)); simpl in *; congruence.
Qed.

Lemma ties_notAfter (x y z : A) :
  dom x -> dom y -> dom z ->
  ties comparefn x y = true -> ties comparefn x z = true ->
  notAfter comparefn y z.
Proof.
  intros Dx Dy Dz Ty Tz.
  apply (consistent_trans _ _ consistent y x z Dy Dx Dz).
  - unfold notAfter. rewrite (consistent_swap _ _ consistent y x Dy Dx).
    unfold ties in Ty. destruct (SortCompare (comparefn x y)); simpl; congruence.
  - unfold notAfter. unfold ties in Tz.
    destruct (SortCompare (comparefn x z)); congruence.
Qed.

(** Two orders of consistent values, each sorted, that agree on every class
    of tied elements, are the same order. *)
Lemma sorted_unique (o1 o2 : list A) :
  Forall dom o1 -> Forall dom o2 ->
  StronglySorted (notAfter comparefn) o1 ->
  StronglySorted (notAfter comparefn) o2 ->
  (forall x, In x o1 \/ In x o2 ->
     filter (ties comparefn x) o1 = filter (ties comparefn x) o2) ->
  o1 = o2.
Proof.
  revert o2. induction o1 as [|a t1 IH]; intros o2 D1 D2 S1 S2 T.
  - destruct o2 as [|b t2]; [reflexivity|]. exfalso.
    inversion D2 as [|? ? Db _]; subst.
    specialize (T b (or_intror (or_introl eq_refl))).
    cbn [filter] in T. rewrite (ties_refl b Db) in T. discriminate.
  - inversion D1 as [|? ? Da Dt1]; subst.
    destruct o2 as [|b t2].
    { exfalso. specialize (T a (or_introl (or_introl eq_refl))).
      cbn [filter] in T. rewrite (ties_refl a Da) in T. discriminate. }
    inversion D2 as [|? ? Db Dt2]; subst.
    inversion S1 as [|? ? S1' H1]; subst.
    inversion S2 as [|? ? S2' H2]; subst.
    assert (Ta : filter (ties comparefn a) (a :: t1)
                 = filter (ties comparefn a) (b :: t2))
      by (apply T; left; left; reflexivity).
    assert (Tb : filter (ties comparefn b) (a :: t1)
                 = filter (ties comparefn b) (b :: t2))
      by (apply T; right; left; reflexivity).
    assert (Lba : notAfter comparefn b a).
    { assert (I : In a (filter (ties comparefn a) (b :: t2))).
      { rewrite <- Ta. cbn [filter]. rewrite (ties_refl a Da). left. reflexivity. }
      apply filter_In in I. destruct I as [[<- | I] _].
      - pose proof (ties_refl b Db) as R. unfold ties, notAfter in *.
        destruct (SortCompare (comparefn b b)); congruence.
      - rewrite Forall_forall in H2. apply H2, I. }
    assert (Lab : notAfter comparefn a b).
    { assert (I : In b (filter (ties comparefn b) (a :: t1))).
      { rewrite Tb. cbn [filter]. rewrite (ties_refl b Db). left. reflexivity. }
      apply filter_In in I. destruct I as [[<- | I] _].
      - pose proof (ties_refl a Da) as R. unfold ties, notAfter in *.
        destruct (SortCompare (comparefn a a)); congruence.
      - rewrite Forall_forall in H1. apply H1, I. }
    assert (E : a = b).
    { cbn [filter] in Ta. rewrite (ties_refl a Da), (ties_both a b Da Db Lab Lba) in Ta.
      congruence. }
    subst b. f_equal. apply IH; auto.
    intros x Hx.
    assert (Tx : filter (ties comparefn x) (a :: t1)
                 = filter (ties comparefn x) (a :: t2)).
    { apply T. destruct Hx; [left|right]; right; assumption. }
    cbn [filter] in Tx. destruct (ties comparefn x a); congruence.
Qed.

(** What ECMA-262 asks fixes the result. *)
Lemma SortResult_unique (l o1 o2 : list A) :
  Forall dom l ->
  SortResult comparefn l o1 -> SortResult comparefn l o2 -> o1 = o2.
Proof.
  intros D [P1 S1 T1] [P2 S2 T2].
  apply sorted_unique; auto.
  - eapply Permutation_Forall; eauto.
  - eapply Permutation_Forall; eauto.
  - intros x Hx.
    assert (I : In x l).
    { destruct Hx as [Hx|Hx]; eapply Permutation_in; try exact Hx; symmetry; assumption. }
    rewrite (T1 x I), (T2 x I). reflexivity.
Qed.

Lemma StronglySorted_impl (R S : A -> A -> Prop) (l : list A) :
  (forall x y, In x l -> In y l -> R x y -> S x y) ->
  StronglySorted R l -> StronglySorted S l.
Proof.
  intros H Hs. induction Hs as [|x l Hs IH Hx]; constructor.
  - apply IH. intros u v Hu Hv. apply H; right; assumption.
  - rewrite Forall_forall in *. intros y Hy. apply H; [left; reflexivity|right; exact Hy|].
    apply Hx, Hy.
Qed.

Lemma sortInsert_filter_in (P : A -> bool) (x : A) (l : list A) :
  (forall y, In y l -> P x = true -> P y = true ->
     SortCompare (comparefn x y) <> Gt) ->
  filter P (sortInsert comparefn x l) = filter P (x :: l).
Proof.
  induction l as [|y l IH]; intros H; [reflexivity|].
  cbn [sortInsert]. destruct (SortCompare (comparefn x y)) eqn:E; try reflexivity.
  cbn [filter] in *. rewrite IH by (intros z Hz; apply H; right; exact Hz).
  destruct (P x) eqn:Px, (P y) eqn:Py; try reflexivity.
  exfalso. apply (H y (or_introl eq_refl) eq_refl Py). exact E.
Qed.

Lemma Array_sort_filter_in (P : A -> bool) (l : list A) :
  (forall y z, In y l -> In z l -> P y = true -> P z = true ->
     SortCompare (comparefn y z) <> Gt) ->
  filter P (Array_sort comparefn l) = filter P l.
Proof.
  induction l as [|x l IH]; intros H; [reflexivity|].
  cbn [Array_sort]. rewrite sortInsert_filter_in.
  - cbn [filter]. rewrite IH; [reflexivity|].
    intros y z Hy Hz. apply H; right; assumption.
  - intros y Hy. apply H; [left; reflexivity|right].
    eapply Permutation_in; [symmetry; apply Array_sort_perm|exact Hy].
Qed.

(** The stable insertion of this file returns what ECMA-262 asks. *)
Lemma Array_sort_SortResult (l : list A) :
  Forall dom l -> SortResult comparefn l (Array_sort comparefn l).
Proof.
  intros D. constructor.
  - apply Array_sort_perm.
  - apply (StronglySorted_impl
             (fun a b => dom a /\ dom b /\ notAfter comparefn a b)).
    { intros x y _ _ H. apply H. }
    apply Array_sort_sorted with (dom := dom); auto.
    + intros x y z [Dx [Dy Lxy]] [_ [Dz Lyz]]. split; [exact Dx|]. split; [exact Dz|].
      exact (consistent_trans _ _ consistent x y z Dx Dy Dz Lxy Lyz).
    + intros x y Dx Dy G. split; [exact Dy|]. split; [exact Dx|].
      unfold notAfter. rewrite (consistent_swap _ _ consistent y x Dy Dx), G.
      discriminate.
  - intros x Hx. rewrite Forall_forall in D.
    apply Array_sort_filter_in.
    intros y z Hy Hz Py Pz.
    exact (ties_notAfter x y z (D x Hx) (D y Hy) (D z Hz) Py Pz).
Qed.

(** Hence the insertion sort is what every conforming engine returns. *)
Lemma SortResult_Array_sort (l out : list A) :
  Forall dom l -> SortResult comparefn l out -> out = Array_sort comparefn l.
Proof.
  intros D R. apply (SortResult_unique l); auto. apply Array_sort_SortResult, D.
Qed.
End SortContractFacts.

(** The insertion sort moves an element only on an answer of the
    comparator, whatever the comparator. *)
Lemma sortInsert_evidence {A : Type} (comparefn : A -> A -> Num) (x : A) (l : list A) :
  Sorted (evidence comparefn) l -> Sorted (evidence comparefn) (sortInsert comparefn x l).
Proof.
  induction l as [|y l IH]; intros S; cbn [sortInsert].
  - repeat constructor.
  - inversion S as [|? ? S' Hy]; subst.
    destruct (SortCompare (comparefn x y)) eqn:E.
    + constructor; [exact S|]. constructor. left. congruence.
    + constructor; [exact S|]. constructor. left. congruence.
    + constructor; [apply IH, S'|].
      destruct l as [|z l]; cbn [sortInsert].
      * constructor. right. congruence.
      * destruct (SortCompare (comparefn x z)).
        -- constructor. right. congruence.
        -- constructor. right. congruence.
        -- inversion Hy; subst. constructor. assumption.
Qed.

Lemma Array_sort_Justified {A : Type} (comparefn : A -> A -> Num) (l : list A) :
  Justified comparefn (Array_sort comparefn l).
Proof.
  unfold Justified.
  assert (S : Sorted (evidence comparefn) (Array_sort comparefn l)).
  { induction l as [|x l IH]; [constructor|]. apply sortInsert_evidence, IH. }
  induction S as [|x o S IH H]; constructor; auto.
  destruct H; constructor. apply t_step. assumption.
Qed.

(* ================================================================== *)
(** * The comparator of sortRequests *)

Lemma compareBy_sortKey (rt : Runtime) (sort : jsstring) (a b : Request) :
  compareBy rt sort a b
  = if ascending sort then Num_sub (sortKey rt sort a) (sortKey rt sort b)
    else Num_sub (sortKey rt sort b) (sortKey rt sort a).
Proof.
  unfold compareBy, sortKey, ascending.
  destruct (streq sort (js "oldest")); [reflexivity|].
  destruct (streq sort (js "due")); [reflexivity|].
  destruct (streq sort (js "priority")); reflexivity.
Qed.

Lemma Num_sub_swap (x y : Num) :
  ordinary x = true -> ordinary y = true ->
  SortCompare (Num_sub x y) = CompOpp (SortCompare (Num_sub y x)).
Proof.
  destruct x, y; simpl; try discriminate; auto.
  intros _ _. rewrite <- Z.compare_antisym.
  destruct (Z.compare_spec (z - z0) 0), (Z.compare_spec 0 (z0 - z)); try reflexivity; lia.
Qed.

Lemma Num_le_not_gt (x y : Num) :
  ordinary x = true -> ordinary y = true ->
  Num_le x y = true -> SortCompare (Num_sub x y) <> Gt.
Proof.
  destruct x, y; simpl; try discriminate.
  intros _ _ H. apply Z.leb_le in H.
  destruct (Z.compare_spec (z - z0) 0); try discriminate. lia.
Qed.

Section ComparatorFacts.
Context (rt : Runtime) (sort : jsstring).

Lemma keyLe_notAfter (x y : Request) :
  keyed rt sort x = true -> keyed rt sort y = true ->
  keyLe (sortKey rt sort) (ascending sort) x y ->
  notAfter (compareRequests rt sort) x y.
Proof.
  unfold keyed, notAfter, compareRequests. intros Kx Ky [[Px Py]|[P L]].
  - rewrite Px, Py. discriminate.
  - rewrite P. destruct (pinned y); cbn [andb negb];
      rewrite compareBy_sortKey; destruct (ascending sort);
      apply Num_le_not_gt; assumption.
Qed.

(** With keys that order, the comparator of [sortRequests] is consistent. *)
Lemma compareRequests_consistent :
  Consistent (compareRequests rt sort) (fun r => keyed rt sort r = true).
Proof.
  constructor.
  - intros a b Ka Kb. unfold compareRequests, keyed in *.
    destruct (pinned a), (pinned b); cbn [andb negb]; try reflexivity;
      rewrite !compareBy_sortKey; destruct (ascending sort);
      apply Num_sub_swap; assumption.
  - intros a b c Ka Kb Kc Hab Hbc.
    apply keyLe_notAfter; auto.
    apply (keyLe_trans rt sort (sortKey rt sort) (ascending sort)
             (compareBy_sortKey rt sort) a b c).
    + apply (key_not_gt rt sort (sortKey rt sort) (ascending sort)
               (compareBy_sortKey rt sort)); assumption.
    + apply (key_not_gt rt sort (sortKey rt sort) (ascending sort)
               (compareBy_sortKey rt sort)); assumption.
Qed.

(** An answer of the comparator never lets an unpinned record stand before
    a pinned one, and neither does a chain of answers. *)
Lemma evidence_pinned (a b : Request) :
  clos_trans Request (evidence (compareRequests rt sort)) a b ->
  pinned b = true -> pinned a = true.
Proof.
  induction 1 as [a b E|a b c _ IH1 _ IH2]; [|auto].
  intros Pb. destruct (pinned a) eqn:Pa; [reflexivity|]. exfalso.
  unfold evidence, compareRequests in E. rewrite Pa, Pb in E. cbn in E.
  destruct E as [E|E]; apply E; reflexivity.
Qed.

Lemma Justified_pinnedFirst (out : list Request) :
  Justified (compareRequests rt sort) out -> pinnedFirst out.
Proof.
  intros J. unfold Justified in J.
  apply Sorted_StronglySorted in J; [|intros x y z; apply t_trans].
  intros i j a b Ha Hb Pa Pb.
  destruct (Nat.lt_trichotomy i j) as [H|[H|H]]; [exact H| |].
  - subst j. rewrite Ha in Hb. injection Hb as ->. congruence.
  - pose proof (StronglySorted_nth _ _ J j i b a H Hb Ha) as C.
    apply evidence_pinned in C; [congruence|exact Pa].
Qed.
End ComparatorFacts.

(* ================================================================== *)
(** * sortRequests: pinned records first *)

Lemma keyed_Forall (rt : Runtime) (sort : jsstring) (l : list Request) :
  forallb (keyed rt sort) l = true -> Forall (fun r => keyed rt sort r = true) l.
Proof. intros H. apply Forall_forall. rewrite forallb_forall in H. exact H. Qed.

Lemma sortRequests_pinnedFirst (rt : Runtime) (sort : jsstring) (l : list Request) :
  pinnedFirst (sortRequests rt l sort).
Proof.
  apply (Justified_pinnedFirst rt sort). apply Array_sort_Justified.
Qed.

(** With keys that order, [sortRequests] is the one array ECMA-262
    allows. *)
Lemma sortRequests_conforming (rt : Runtime) (sort : jsstring) (l : list Request) :
  forallb (keyed rt sort) l = true ->
  SortResult (compareRequests rt sort) l (sortRequests rt l sort)
  /\ forall out, SortResult (compareRequests rt sort) l out ->
                 out = sortRequests rt l sort.
Proof.
  intros K. apply keyed_Forall in K. split.
  - apply (Array_sort_SortResult _ _ (compareRequests_consistent rt sort)), K.
  - intros out R.
    apply (SortResult_Array_sort _ _ (compareRequests_consistent rt sort) l out K R).
Qed.


(* ================================================================== *)
(** * triageBuckets *)

Section TriageFacts.
Context (rt : Runtime) (now : Z).

(** A date made from a string is a time value or invalid. *)
Lemma newDateOpt_cases (v : option jsstring) :
  newDateOpt rt v = NaN \/ exists t, newDateOpt rt v = Fin t.
Proof.
  destruct v as [s|]; simpl; auto.
  unfold newDate. destruct (Date_parse rt s) as [t|]; auto.
  unfold TimeClip. destruct (Z.abs t <=? _); eauto.
Qed.

(** [today] is local midnight: its local time is a whole number of days. *)
Lemma today_cases :
  today rt now = NaN
  \/ today rt now = Fin (Day (LocalTime rt now) * msPerDay - LocalTZA rt).
Proof.
  unfold today, setHours0, TimeClip, UTC.
  destruct (Z.abs _ <=? _); auto.
Qed.

Lemma Day_midnight (d : Z) : Day (d * msPerDay) = d.
Proof. unfold Day, msPerDay. apply Z.div_mul. lia. Qed.

Lemma Day_before_midnight (t d : Z) : t < d * msPerDay -> Day t < d.
Proof.
  unfold Day, msPerDay. intros H.
  apply Z.div_lt_upper_bound; lia.
Qed.

(** No record is both overdue and due today. *)
Lemma overdue_not_today (r : Request) :
  isOverdue rt now r = true -> isToday rt now (dueDate r) = false.
Proof.
  unfold isOverdue, isToday.
  destruct (truthy (dueDate r)); simpl; [|discriminate].
  destruct (newDateOpt_cases (dueDate r)) as [-> | [t ->]]; simpl; [discriminate|].
  destruct today_cases as [-> | ->]; simpl; [discriminate|].
  intros H. apply andb_true_iff in H. destruct H as [H _].
  apply Z.ltb_lt in H.
  destruct (YearFromTime (LocalTime rt t) =? _) eqn:Ey; simpl; [|reflexivity].
  destruct (MonthFromTime (LocalTime rt t) =? _) eqn:Em; simpl; [|reflexivity].
  destruct (DateFromTime (LocalTime rt t) =? _) eqn:Ed; simpl; [|reflexivity].
  exfalso.
  apply Z.eqb_eq in Ey, Em, Ed.
  pose proof (calendar_inj _ _ Ey Em Ed) as E.
  unfold LocalTime in E at 2.
  replace (Day (LocalTime rt now) * msPerDay - LocalTZA rt + LocalTZA rt)
    with (Day (LocalTime rt now) * msPerDay) in E by lia.
  rewrite Day_midnight in E.
  assert (L : Day (LocalTime rt t) < Day (LocalTime rt now)).
  { apply Day_before_midnight. unfold LocalTime at 1. lia. }
  lia.
Qed.

(** A due date that is not a date is in neither bucket. *)
Lemma invalid_due_neither (r : Request) :
  isNaN (newDateOpt rt (dueDate r)) = true ->
  isOverdue rt now r = false /\ isToday rt now (dueDate r) = false.
Proof.
  intros H. unfold isOverdue, isToday.
  destruct (truthy (dueDate r)); simpl; auto.
  rewrite H. auto.
Qed.
End TriageFacts.

(** C4. For every collection and every evaluation time, the overdue bucket
    and the due-today bucket computed by triage share no record. *)
Theorem triage_disjoint (rt : Runtime) (now : Z) (reqs : list Request) :
  (forall r, isOverdue rt now r && isToday rt now (dueDate r) = false)
  /\ Forall (fun r => ~ In r (dueToday (triageBuckets rt now reqs)))
       (overdue (triageBuckets rt now reqs))
  /\ Forall (fun r => ~ In r (overdue (triageBuckets rt now reqs)))
       (dueToday (triageBuckets rt now reqs)).
Proof.
  assert (D : forall r, isOverdue rt now r && isToday rt now (dueDate r) = false).
  { intros r. destruct (isOverdue rt now r) eqn:E; [|reflexivity].
    simpl. apply overdue_not_today. exact E. }
  split; [exact D|]. simpl.
  split; apply Forall_forall; intros r Hr Hr';
    apply filter_In in Hr; apply filter_In in Hr';
    destruct Hr as [_ Hr]; destruct Hr' as [_ Hr'];
    specialize (D r); rewrite Hr, Hr' in D; discriminate.
Qed.

(** C10. A record whose due date is present but does not parse to a valid
    date is placed by triage in neither bucket. *)
Theorem malformed_due_in_no_bucket (rt : Runtime) (now : Z) (reqs : list Request)
    (r : Request) (s : jsstring) :
  dueDate r = Some s ->
  isNaN (newDate rt s) = true ->
  ~ In r (overdue (triageBuckets rt now reqs))
  /\ ~ In r (dueToday (triageBuckets rt now reqs)).
Proof.
  intros E H.
  assert (N : isNaN (newDateOpt rt (dueDate r)) = true) by (rewrite E; exact H).
  destruct (invalid_due_neither rt now r N) as [A B].
  simpl. split; intros I; apply filter_In in I; destruct I as [_ I]; congruence.
Qed.

(** C10 at the record whose due date reads [garbage]. *)
Lemma malformed_due_in_no_bucket_witness :
  dueDate badDue = Some (js "garbage")
  /\ isNaN (newDate utcHost (js "garbage")) = true
  /\ ~ In badDue (overdue (triageBuckets utcHost 1709251200000 [noDue; badDue]))
  /\ ~ In badDue (dueToday (triageBuckets utcHost 1709251200000 [noDue; badDue])).
Proof.
  split; [reflexivity|]. split; [reflexivity|].
  apply (malformed_due_in_no_bucket utcHost 1709251200000 [noDue; badDue]
           badDue (js "garbage")); reflexivity.
Defined.

(* ================================================================== *)
(** * The handlers *)

Lemma setRequests_same (s : State) : setRequests (requests s) s = s.
Proof. destruct s; reflexivity. Qed.

Lemma setSelected_same (s : State) : setSelected (selected s) s = s.
Proof. destruct s; reflexivity. Qed.

Lemma map_unchanged {A : Type} (f : A -> A) (l : list A) :
  (forall x, In x l -> f x = x) -> map f l = l.
Proof.
  induction l as [|x l IH]; simpl; intros H; [reflexivity|].
  rewrite H by auto. rewrite IH; auto.
Qed.

Lemma markSynced_spec (i : jsstring) (b : bool) (l : list Request) :
  Forall (fun r => id r = i -> synced r = b) (markSynced i b l)
  /\ map id (markSynced i b l) = map id l.
Proof.
  unfold markSynced. split.
  - apply Forall_forall. intros r Hr. apply in_map_iff in Hr.
    destruct Hr as [r0 [<- _]]. destruct (streq (id r0) i) eqn:E; simpl; auto.
    intros E'. apply streq_eq in E'. congruence.
  - rewrite map_map. apply map_ext. intros r.
    destruct (streq (id r) i); reflexivity.
Qed.

(** C3. A submission whose name or description is empty after trimming is
    refused: the handler stops at the validation, reports an error toast,
    and changes nothing else: no record is added and every other cell of
    the state keeps its value. *)
Theorem create_rejects_empty (rt : Runtime) (SHEETS_ENDPOINT newId : jsstring)
    (now : Z) (net : FetchOutcome) (s : State) :
  trim (formName s) = [] \/ trim (formDesc s) = [] ->
  exists msg,
    submitRequest_begin rt SHEETS_ENDPOINT newId now s
    = (SubmitInvalid,
       setToasts (toasts s ++ [{| message := msg; tone := js "error" |}]) s)
    /\ submitRequest rt SHEETS_ENDPOINT newId now net s
       = setToasts (toasts s ++ [{| message := msg; tone := js "error" |}]) s
    /\ requests (submitRequest rt SHEETS_ENDPOINT newId now net s) = requests s.
Proof.
  intros H. unfold submitRequest, submitRequest_begin.
  destruct (trim (formName s)) eqn:En; simpl.
  - exists (js "Name is required"). repeat split.
  - destruct H as [H|H]; [discriminate|]. rewrite H. simpl.
    exists (js "Description is required"). repeat split.
Qed.

(** C3 at a form whose description is two spaces. *)
Lemma create_rejects_empty_witness :
  exists msg,
    submitRequest_begin utcHost [] (js "id-1") 1709251200000 blankForm
    = (SubmitInvalid,
       setToasts (toasts blankForm ++ [{| message := msg; tone := js "error" |}]) blankForm)
    /\ submitRequest utcHost [] (js "id-1") 1709251200000 NetworkError blankForm
       = setToasts (toasts blankForm ++ [{| message := msg; tone := js "error" |}]) blankForm
    /\ requests (submitRequest utcHost [] (js "id-1") 1709251200000 NetworkError blankForm)
       = requests blankForm.
Proof.
  apply (create_rejects_empty utcHost [] (js "id-1") 1709251200000 NetworkError blankForm).
  right. reflexivity.
Defined.

(** C7. Updating an id that no record of the collection carries changes no
    record and reports nothing; with no record selected the state is
    untouched. *)
Theorem update_unknown_id (i : jsstring) (changes : Changes) (s : State) :
  existsb (fun r => streq (id r) i) (requests s) = false ->
  requests (updateRequest i changes s) = requests s
  /\ toasts (updateRequest i changes s) = toasts s
  /\ (selected s = None -> updateRequest i changes s = s).
Proof.
  intros H.
  assert (R : map (fun r => if streq (id r) i then merge r changes else r) (requests s)
              = requests s).
  { apply map_unchanged. intros r Hr.
    destruct (streq (id r) i) eqn:E; [|reflexivity].
    exfalso. assert (X : existsb (fun r => streq (id r) i) (requests s) = true)
      by (apply existsb_exists; eauto). congruence. }
  unfold updateRequest. cbv zeta. rewrite R. rewrite setRequests_same.
  repeat split. intros N. rewrite N. rewrite <- N. apply setSelected_same.
Qed.

(** C7 at an id the collection does not hold. *)
Lemma update_unknown_id_witness :
  requests (updateRequest (js "zz") pinChange blankForm) = requests blankForm
  /\ toasts (updateRequest (js "zz") pinChange blankForm) = toasts blankForm
  /\ (selected blankForm = None -> updateRequest (js "zz") pinChange blankForm = blankForm).
Proof.
  apply (update_unknown_id (js "zz") pinChange blankForm). reflexivity.
Defined.

(** C2, as the claim states it, fails: a push that resolves with an opaque
    response is taken for a success, and the record ends marked as synced. *)
Lemma push_opaque_counterexample :
  pushFailed (Responded opaqueResponse) = true
  /\ map synced
       (requests (submitRequest utcHost endpoint (js "id-1") 1709251200000
                    (Responded opaqueResponse) filledForm))
     = [true]
  /\ ~ Forall (fun r => synced r = false)
         (requests (submitRequest utcHost endpoint (js "id-1") 1709251200000
                      (Responded opaqueResponse) filledForm)).
Proof.
  split; [reflexivity|]. split; [reflexivity|].
  intros H. vm_compute in H. inversion H as [|r l Hr _]. discriminate.
Qed.

(** C2, amended. With an endpoint configured, a push whose fetch rejects is
    a sync failure: after a submission the record is marked unsynced and
    the failure is reported; after a retry the collection is left as it
    was and the failure is reported.  A push whose fetch resolves, with
    whatever response, opaque or not, marks the record synced. *)
Theorem push_outcome (SHEETS_ENDPOINT : jsstring) (newReq req : Request)
    (res : Response) (s : State) :
  nonEmpty SHEETS_ENDPOINT = true ->
  (requests (submitRequest_settle newReq NetworkError s)
   = markSynced (id newReq) false (requests s)
   /\ Forall (fun r => id r = id newReq -> synced r = false)
        (requests (submitRequest_settle newReq NetworkError s))
   /\ toasts (submitRequest_settle newReq NetworkError s)
      = toasts s ++ [{| message := js "Failed to sync. You can retry.";
                        tone := js "error" |}])
  /\ (requests (retrySync SHEETS_ENDPOINT req NetworkError s) = requests s
      /\ toasts (retrySync SHEETS_ENDPOINT req NetworkError s)
         = toasts s ++ [{| message := js "Sync failed"; tone := js "error" |}])
  /\ (Forall (fun r => id r = id newReq -> synced r = true)
        (requests (submitRequest_settle newReq (Responded res) s))
      /\ Forall (fun r => id r = id req -> synced r = true)
           (requests (retrySync SHEETS_ENDPOINT req (Responded res) s))).
Proof.
  intros E. unfold retrySync. rewrite E. simpl.
  repeat split; try apply markSynced_spec.
Qed.

(** The amended C2 at a store of two unsynced records. *)
Lemma push_outcome_witness :
  map synced (requests (submitRequest_settle noDue NetworkError unsyncedStore))
  = [false; false]
  /\ map synced (requests (submitRequest_settle noDue (Responded opaqueResponse)
                             unsyncedStore))
     = [true; false]
  /\ Forall (fun r => id r = id noDue -> synced r = false)
       (requests (submitRequest_settle noDue NetworkError unsyncedStore)).
Proof.
  split; [reflexivity|]. split; [reflexivity|].
  apply (push_outcome endpoint noDue badDue opaqueResponse unsyncedStore).
  reflexivity.
Defined.

(** C6. A pull that fails (the fetch rejects, or the body carries no [rows]
    member, or [rows] is not a list) leaves the collection exactly as it
    was and reports the failure; only the loading flag and the toasts
    change. *)
Theorem refresh_failure_keeps_collection (net : FetchOutcome) (s : State) :
  refreshFailed net = true ->
  refreshFromSheet_settle net s
  = setLoadingRefresh false (pushToast (js "Refresh failed") (js "error") s)
  /\ requests (refreshFromSheet_settle net s) = requests s
  /\ toasts (refreshFromSheet_settle net s)
     = toasts s ++ [{| message := js "Refresh failed"; tone := js "error" |}].
Proof.
  intros F.
  assert (E : refreshFromSheet_settle net s
              = setLoadingRefresh false (pushToast (js "Refresh failed") (js "error") s)).
  { unfold refreshFromSheet_settle, refreshFailed in *.
    destruct net as [|res]; [reflexivity|].
    destruct (json res) as [data|]; [|reflexivity].
    destruct (getProp data (js "rows")) as [v|]; [|reflexivity].
    destruct v; try discriminate; simpl;
      try reflexivity.
    - destruct b; reflexivity.
    - destruct (z =? 0); reflexivity.
    - destruct (nonEmpty s0); reflexivity. }
  rewrite E. repeat split.
Qed.

(** C6 at the body whose [rows] is a string. *)
Lemma refresh_failure_keeps_collection_witness :
  refreshFailed rowsNotArray = true
  /\ requests (refreshFromSheet_settle rowsNotArray unsyncedStore)
     = requests unsyncedStore
  /\ toasts (refreshFromSheet_settle rowsNotArray unsyncedStore)
     = toasts unsyncedStore
       ++ [{| message := js "Refresh failed"; tone := js "error" |}].
Proof.
  split; [reflexivity|].
  apply (refresh_failure_keeps_collection rowsNotArray unsyncedStore).
  reflexivity.
Defined.

(* ================================================================== *)
(** * The persistence effects: no save before the load is applied *)

Lemma flags_snoc (evs : list Event) (e : Event) (l a : bool) :
  flags l a (evs ++ [e])
  = match e with
    | Loaded => (true, snd (flags l a evs))
    | Rendered _ hyd =>
        (fst (flags l a evs), snd (flags l a evs) || (fst (flags l a evs) && hyd))
    | Saved _ => flags l a evs
    end.
Proof.
  revert l a. induction evs as [|x evs IH]; intros l a; simpl.
  - destruct e; reflexivity.
  - destruct x; apply IH.
Qed.

Lemma savesGuarded_snoc (evs : list Event) (e : Event) (l a : bool) :
  savesGuarded l a (evs ++ [e])
  = savesGuarded l a evs
    && match e with Saved _ => snd (flags l a evs) | _ => true end.
Proof.
  revert l a. induction evs as [|x evs IH]; intros l a; simpl.
  - destruct e; simpl; rewrite ?andb_true_r; reflexivity.
  - destruct x; rewrite IH; try reflexivity.
    rewrite andb_assoc. reflexivity.
Qed.

Lemma hydrated_fold (q : list Update) (s : State) :
  hydrated (fold_left applyUpdate q s) = true ->
  hydrated s = true \/ In (SetHydrated true) q.
Proof.
  revert s. induction q as [|u q IH]; simpl; intros s H; auto.
  apply IH in H. destruct H as [H|H]; auto.
  destruct u as [f|b]; simpl in H; auto.
  subst b. auto.
Qed.

Lemma Ordered_mount (sl : Slot) : Ordered (mount sl).
Proof.
  constructor; simpl; try reflexivity; try discriminate.
  - intros reqs [H|[H|[]]]; discriminate.
  - intros [].
Qed.

Lemma Ordered_step (h : Hub) (a : Action) : Ordered h -> Ordered (step h a).
Proof.
  intros [S R E Q]. destruct a as [| |f|]; simpl.
  - (* an effect runs *)
    unfold runEffect. destruct (effects h) as [|e rest] eqn:Ee.
    + constructor; rewrite ?Ee; auto.
    + destruct e as [|reqs hyd].
      * constructor; simpl.
        -- rewrite savesGuarded_snoc, S. reflexivity.
        -- rewrite flags_snoc. simpl. exact R.
        -- rewrite flags_snoc. simpl. intros reqs H. apply (E reqs). right. exact H.
        -- rewrite flags_snoc. reflexivity.
      * destruct hyd; simpl.
        -- assert (A : snd (flags false false (rev (history h))) = true)
             by (apply (E reqs); left; reflexivity).
           constructor; simpl.
           ++ rewrite savesGuarded_snoc, S, A. reflexivity.
           ++ rewrite flags_snoc. exact R.
           ++ rewrite flags_snoc. intros r H. apply (E r). right. exact H.
           ++ rewrite flags_snoc. exact Q.
        -- constructor; simpl; auto.
           intros r H. apply (E r). right. exact H.
  - (* a render *)
    unfold render. destruct (queue h) as [|u q] eqn:Eq.
    + constructor; rewrite ?Eq; auto.
    + set (s := fold_left applyUpdate (u :: q) (rendered h)).
      assert (A : hydrated s = true ->
                  snd (flags false false (rev (history h)))
                  || (fst (flags false false (rev (history h))) && hydrated s) = true).
      { intros H. rewrite H. destruct (hydrated_fold _ _ H) as [H'|H'].
        - rewrite R by exact H'. reflexivity.
        - rewrite Q by exact H'. apply orb_true_r. }
      constructor; simpl.
      * rewrite savesGuarded_snoc, S. reflexivity.
      * rewrite flags_snoc. simpl. exact A.
      * rewrite flags_snoc. simpl. intros reqs H. apply in_app_or in H.
        destruct H as [H|[H|[]]].
        -- rewrite (E reqs H). reflexivity.
        -- injection H as _ H. apply A. exact H.
      * intros [].
  - (* a handler queues an update of the collection *)
    constructor; simpl; auto.
    intros H. apply in_app_or in H. destruct H as [H|[H|[]]]; [auto|discriminate].
  - (* the effects are run once more *)
    constructor; simpl; auto.
    intros reqs H. apply in_app_or in H. destruct H as [H|[H|[H|[]]]].
    + apply (E reqs H).
    + discriminate.
    + injection H as _ H. auto.
Qed.

Lemma Ordered_run (acts : list Action) (h : Hub) :
  Ordered h -> Ordered (fold_left step acts h).
Proof.
  revert h. induction acts as [|a acts IH]; simpl; intros h H; auto.
  apply IH, Ordered_step, H.
Qed.

(** ** What the first save writes *)

Section Loaded.
Context (L : list Request).

Lemma loads_app (q : list Update) (sl : Slot) :
  loads L q -> loadResult sl = L -> loads L (q ++ loadUpdates sl).
Proof.
  intros [sls [F ->]] E. exists (sls ++ [sl]). split.
  - apply Forall_app. auto.
  - rewrite flat_map_app. simpl. rewrite app_nil_r. reflexivity.
Qed.

Lemma fresh_load (sl : Slot) (s : State) :
  loadResult sl = L -> fresh L s ->
  requests (fold_left applyUpdate (loadUpdates sl) s) = L
  /\ hydrated (fold_left applyUpdate (loadUpdates sl) s) = true.
Proof.
  intros E [[F|F] _]; destruct sl; simpl in *; subst; auto.
Qed.

Lemma fresh_loads (sls : list Slot) (s : State) :
  Forall (fun sl => loadResult sl = L) sls -> fresh L s ->
  fresh L (fold_left applyUpdate (flat_map loadUpdates sls) s).
Proof.
  intros F. revert s. induction F as [|sl sls E F IH]; simpl; intros s H; auto.
  rewrite fold_left_app. apply IH.
  destruct (fresh_load sl s E H) as [A B]. split; auto.
Qed.

Lemma Faithful_step (h : Hub) (a : Action) :
  isMutate a = false -> Faithful L h -> Faithful L (step h a).
Proof.
  intros M [S V R E Q]. destruct a as [| |f|]; simpl; try discriminate.
  - unfold runEffect. destruct (effects h) as [|e rest] eqn:Ee.
    + constructor; rewrite ?Ee; auto.
    + assert (E' : forall r, In (PersistEffect r true) rest -> r = L)
        by (intros r H; apply E; right; exact H).
      destruct e as [|reqs hyd].
      * constructor; simpl; auto.
        -- constructor; simpl; auto.
        -- apply loads_app; auto.
      * destruct hyd; simpl.
        -- assert (A : reqs = L) by (apply E; left; reflexivity).
           constructor; simpl; auto.
        -- constructor; simpl; auto.
  - unfold render. destruct (queue h) as [|u q] eqn:Eq.
    + constructor; rewrite ?Eq; auto.
    + destruct Q as [sls [F Es]].
      assert (A : fresh L (fold_left applyUpdate (u :: q) (rendered h))).
      { rewrite Es. apply fresh_loads; assumption. }
      constructor; simpl; auto.
      * constructor; simpl; auto.
      * intros reqs H. apply in_app_or in H. destruct H as [H|[H|[]]]; auto.
        injection H as <- H. apply A. exact H.
      * exists []. split; auto.
  - constructor; simpl; auto.
    intros reqs H. apply in_app_or in H. destruct H as [H|[H|[H|[]]]]; auto.
    + discriminate.
    + injection H as <- H. apply R. exact H.
Qed.

Lemma Faithful_run (acts : list Action) (h : Hub) :
  forallb (fun a => negb (isMutate a)) acts = true ->
  Faithful L h -> Faithful L (fold_left step acts h).
Proof.
  revert h. induction acts as [|a acts IH]; simpl; intros h M H; auto.
  apply andb_true_iff in M. destruct M as [Ma M].
  apply IH; auto. apply Faithful_step; auto.
  destruct (isMutate a); [discriminate|reflexivity].
Qed.
End Loaded.

Lemma Faithful_mount (sl : Slot) : Faithful (loadResult sl) (mount sl).
Proof.
  constructor; simpl; auto.
  - repeat constructor.
  - split; auto. discriminate.
  - intros reqs [H|[H|[]]]; discriminate.
  - exists []. split; auto.
Qed.

(** C9. In every execution, whatever the order in which effects run,
    renders happen and handlers fire, a save to local storage comes only
    after a load has run and a render with the readiness flag set has
    followed it; a persist effect that saw the flag unset writes nothing;
    and when no handler has changed the collection, every save writes the
    collection that was loaded (the empty one when the slot held none). *)
Theorem save_after_load (sl : Slot) (acts : list Action) :
  savesGuarded false false (rev (history (run sl acts))) = true
  /\ (forall h reqs rest,
        effects h = PersistEffect reqs false :: rest ->
        slot (runEffect h) = slot h /\ history (runEffect h) = history h)
  /\ Forall (savesOnly (loadResult sl))
       (history (run sl (filter (fun a => negb (isMutate a)) acts))).
Proof.
  split; [|split].
  - apply (Ordered_run acts (mount sl) (Ordered_mount sl)).
  - intros h reqs rest E. unfold runEffect. rewrite E. simpl. auto.
  - apply (faithful_saves (loadResult sl)). apply Faithful_run.
    + apply forallb_forall. intros a H. apply filter_In in H. apply H.
    + apply Faithful_mount.
Qed.

(* ================================================================== *)
(** * toCSV: what is written reads back *)

Lemma special_false (c : N) :
  special c = false -> c <> QUOTE /\ c <> COMMA /\ c <> LF.
Proof.
  unfold special. rewrite !orb_false_iff, !N.eqb_neq. tauto.
Qed.

Lemma neqb (c d : N) : c <> d -> (c =? d)%N = false.
Proof. apply N.eqb_neq. Qed.

(** One step of the reader on an ordinary character of an unquoted field:
    the character joins the field. *)
Lemma bare_step (m : Mode) (c : N) (cell : jsstring) (row : list jsstring)
    (rest : jsstring) :
  m = FieldStart \/ m = Bare ->
  special c = false -> c <> CR ->
  parseCSV_from m cell row (c :: rest) = parseCSV_from Bare (c :: cell) row rest.
Proof.
  intros M Sc Rc.
  destruct (special_false c Sc) as [Q [C L]].
  destruct M as [-> | ->]; cbn [parseCSV_from];
    rewrite ?(neqb _ _ Q), (neqb _ _ C), (neqb _ _ L), (neqb _ _ Rc); reflexivity.
Qed.

Lemma field_end (m : Mode) (cell : jsstring) (row : list jsstring) (k : jsstring) :
  m <> Quoted -> follows k ->
  (m = FieldStart -> k = [] -> row <> []) ->
  parseCSV_from m cell row k = finish (rev cell) row k.
Proof.
  intros M F E. destruct k as [|c k].
  - destruct m; try congruence; try reflexivity.
    destruct row; [exfalso; apply (E eq_refl eq_refl); reflexivity|reflexivity].
  - simpl in F. destruct F as [-> | ->]; destruct m; try congruence; reflexivity.
Qed.

Lemma bare_run (v cell : jsstring) (row : list jsstring) (k : jsstring) :
  existsb special v = false -> holds CR v = false -> follows k ->
  parseCSV_from Bare cell row (v ++ k) = finish (rev cell ++ v) row k.
Proof.
  revert cell. induction v as [|c v IH]; intros cell S R F.
  - rewrite app_nil_r. apply field_end; [discriminate|exact F|discriminate].
  - simpl in S. apply orb_false_iff in S. destruct S as [Sc S].
    unfold holds in R. cbn [existsb] in R. apply orb_false_iff in R.
    destruct R as [Rc R]. rewrite N.eqb_sym in Rc. apply N.eqb_neq in Rc.
    change ((c :: v) ++ k) with (c :: v ++ k).
    rewrite bare_step by auto.
    rewrite IH by assumption.
    simpl. rewrite <- app_assoc. reflexivity.
Qed.

Lemma start_bare (v : jsstring) (row : list jsstring) (k : jsstring) :
  existsb special v = false -> holds CR v = false -> follows k ->
  (v = [] -> k = [] -> row <> []) ->
  parseCSV_from FieldStart [] row (v ++ k) = finish v row k.
Proof.
  intros S R F E. destruct v as [|c v].
  - apply (field_end FieldStart [] row k); [discriminate|exact F|].
    intros _. apply E. reflexivity.
  - simpl in S. apply orb_false_iff in S. destruct S as [Sc S].
    unfold holds in R. cbn [existsb] in R. apply orb_false_iff in R.
    destruct R as [Rc R]. rewrite N.eqb_sym in Rc. apply N.eqb_neq in Rc.
    change ((c :: v) ++ k) with (c :: v ++ k).
    rewrite bare_step by auto.
    rewrite bare_run by assumption. reflexivity.
Qed.

Lemma quoted_run (v cell : jsstring) (row : list jsstring) (k : jsstring) :
  parseCSV_from Quoted cell row (doubleQuotes v ++ QUOTE :: k)
  = parseCSV_from QuoteSeen (rev v ++ cell) row k.
Proof.
  revert cell. induction v as [|c v IH]; intros cell; simpl.
  - reflexivity.
  - destruct (c =? QUOTE)%N eqn:E; simpl.
    + apply N.eqb_eq in E. subst c. rewrite IH. rewrite <- app_assoc. reflexivity.
    + rewrite E. rewrite IH. rewrite <- app_assoc. reflexivity.
Qed.

(** After a closing quote only the first character of [k] matters. *)
Lemma quote_seen_end (cell : jsstring) (row : list jsstring) (k : jsstring) :
  follows k ->
  parseCSV_from QuoteSeen cell row k = finish (rev cell) row k.
Proof.
  intros F. apply field_end; [discriminate|exact F|discriminate].
Qed.

Lemma holds_special (v : jsstring) :
  holds 34 v || (holds 44 v || holds 10 v) = existsb special v.
Proof.
  unfold holds, special, QUOTE, COMMA, LF.
  induction v as [|c v IH]; [reflexivity|]. cbn [existsb]. rewrite <- IH.
  rewrite !(N.eqb_sym _ c).
  destruct (c =? 34)%N, (c =? 44)%N, (c =? 10)%N,
    (existsb (N.eqb 34) v), (existsb (N.eqb 44) v), (existsb (N.eqb 10) v);
    reflexivity.
Qed.

Lemma carriageFree_cases (v : jsstring) :
  carriageFree v = true -> existsb special v = true \/ holds CR v = false.
Proof.
  unfold carriageFree. rewrite <- !orb_assoc, holds_special.
  intros H. apply orb_true_iff in H. destruct H as [H|H]; [right|left; exact H].
  apply negb_true_iff in H. exact H.
Qed.

(** One escaped field reads back as the field. *)
Lemma esc_reads_back (v : jsstring) (row : list jsstring) (k : jsstring) :
  carriageFree v = true -> follows k ->
  (v = [] -> k = [] -> row <> []) ->
  parseCSV_from FieldStart [] row (esc (Some v) ++ k) = finish v row k.
Proof.
  intros R F E. unfold esc. destruct (existsb special v) eqn:S.
  - change (([QUOTE] ++ doubleQuotes v ++ [QUOTE]) ++ k)
      with (QUOTE :: ((doubleQuotes v ++ [QUOTE]) ++ k)).
    rewrite <- app_assoc. simpl.
    rewrite quoted_run, quote_seen_end by assumption.
    rewrite app_nil_r, rev_involutive. reflexivity.
  - destruct (carriageFree_cases v R) as [C|C]; [congruence|].
    apply start_bare; assumption.
Qed.

(** One written record reads back as its fields, whether the input ends
    there or goes on after a line feed. *)
Lemma record_reads_back (v : jsstring) (vs row : list jsstring)
    (tail : option jsstring) :
  forallb carriageFree (v :: vs) = true ->
  last (v :: vs) [] <> [] ->
  parseCSV_from FieldStart [] row
    (writeLine (v :: vs) ++ match tail with None => [] | Some k => LF :: k end)
  = match tail with
    | None => [rev (rev (v :: vs) ++ row)]
    | Some k => rev (rev (v :: vs) ++ row) :: parseCSV_from FieldStart [] [] k
    end.
Proof.
  revert v row. induction vs as [|w vs IH]; intros v row R E.
  - change (writeLine [v]) with (esc (Some v)). simpl in E, R.
    rewrite andb_true_r in R. destruct tail as [k|].
    + rewrite esc_reads_back; [reflexivity|exact R|right; reflexivity|discriminate].
    + rewrite esc_reads_back; [reflexivity|exact R|exact I|]. intros V. congruence.
  - change (writeLine (v :: w :: vs))
      with (esc (Some v) ++ [COMMA] ++ writeLine (w :: vs)).
    rewrite <- !app_assoc.
    cbn [forallb] in R. apply andb_true_iff in R. destruct R as [Rv R].
    rewrite esc_reads_back; [|exact Rv|left; reflexivity|discriminate].
    unfold finish. cbn [app]. rewrite N.eqb_refl.
    rewrite IH by assumption.
    replace (rev (w :: vs) ++ v :: row) with (rev (v :: w :: vs) ++ row)
      by (simpl; rewrite <- !app_assoc; reflexivity).
    reflexivity.
Qed.

(** A written table of records the reader can tell apart reads back as the
    table. *)
Lemma table_reads_back (r : list jsstring) (table : list (list jsstring)) :
  Forall closedRecord (r :: table) ->
  Forall (fun row => forallb carriageFree row = true) (r :: table) ->
  parseCSV (writeCSV (r :: table)) = r :: table.
Proof.
  unfold parseCSV, writeCSV.
  revert r. induction table as [|r2 table IH]; intros r F G.
  - inversion F as [|? ? [Hr Hc] _]; subst. inversion G as [|? ? Gr _]; subst.
    destruct r as [|v vs]; [congruence|].
    pose proof (record_reads_back v vs [] None Gr Hc) as H.
    rewrite !app_nil_r in H.
    change (join [LF] (map writeLine [v :: vs])) with (writeLine (v :: vs)).
    rewrite H. rewrite rev_involutive. reflexivity.
  - inversion F as [|? ? [Hr Hc] F']; subst. inversion G as [|? ? Gr G']; subst.
    destruct r as [|v vs]; [congruence|].
    change (join [LF] (map writeLine ((v :: vs) :: r2 :: table)))
      with (writeLine (v :: vs) ++ LF :: join [LF] (map writeLine (r2 :: table))).
    rewrite (record_reads_back v vs []
               (Some (join [LF] (map writeLine (r2 :: table)))) Gr Hc).
    rewrite IH by assumption.
    rewrite app_nil_r, rev_involutive. reflexivity.
Qed.

Lemma toCSV_writeCSV (rows : list Request) :
  toCSV rows = writeCSV (headers :: map cells rows).
Proof.
  unfold toCSV, writeCSV. cbv zeta. rewrite map_cons, map_map. reflexivity.
Qed.

Lemma esc_quotes (v : jsstring) :
  (In QUOTE v \/ In COMMA v \/ In LF v -> existsb special v = true)
  /\ (~ (In QUOTE v \/ In COMMA v \/ In LF v) -> existsb special v = false).
Proof.
  split.
  - intros H. apply existsb_exists.
    destruct H as [H|[H|H]]; eexists; (split; [exact H|]); reflexivity.
  - intros H. destruct (existsb special v) eqn:E; [|reflexivity].
    exfalso. apply H. apply existsb_exists in E. destruct E as [c [Hc Sc]].
    unfold special in Sc. rewrite !orb_true_iff, !N.eqb_eq in Sc.
    destruct Sc as [[-> | ->] | ->]; auto.
Qed.

(** C8, as the claim states it, fails: a field that holds a carriage
    return and no comma, double quote or line feed is written without
    quotes, and a reader of CSV ends the record at the carriage return.
    The notes [a], carriage return, [b] come back as the last field [a] of
    one record and the first field [b] of another. *)
Lemma csv_carriage_return_counterexample :
  toCSV [crNote]
  = js "createdAt,name,description,dueDate,priority,status,devNotes,pinned"
    ++ [LF] ++ js "2024-03-01T09:00:00.000Z,Alice,Bracket,,Normal,New,a"
    ++ [CR] ++ js "b,false"
  /\ parseCSV (toCSV [crNote])
     = [ [js "createdAt"; js "name"; js "description"; js "dueDate";
          js "priority"; js "status"; js "devNotes"; js "pinned"];
         [js "2024-03-01T09:00:00.000Z"; js "Alice"; js "Bracket"; [];
          js "Normal"; js "New"; js "a"];
         [js "b"; js "false"] ]
  /\ parseCSV (toCSV [crNote])
     <> [ [js "createdAt"; js "name"; js "description"; js "dueDate";
           js "priority"; js "status"; js "devNotes"; js "pinned"];
          [createdAt crNote; name crNote; description crNote; [];
           priority crNote; status crNote; devNotes crNote; js "false"] ].
Proof.
  split; [reflexivity|]. split; [reflexivity|].
  vm_compute. discriminate.
Qed.

(** C8, amended. The export begins with exactly the header row and writes
    one line per record, the eight fields in the order of the header,
    [pinned] as [true] or [false] and an absent due date as the empty
    string; it puts between double quotes, with the inner double quotes
    doubled, every field that holds a comma, a double quote or a line feed,
    and leaves the other fields as they are.  When every field that holds a
    carriage return also holds one of those three characters, the export
    reads back, field by field, as the header and the fields of the
    records. *)
Theorem csv_export (rows : list Request) :
  toCSV rows
  = join [LF]
      (js "createdAt,name,description,dueDate,priority,status,devNotes,pinned"
       :: map (fun r =>
                 join [COMMA]
                   (map (fun v => esc (Some v))
                      [createdAt r; name r; description r;
                       match dueDate r with Some d => d | None => [] end;
                       priority r; status r; devNotes r;
                       if pinned r then js "true" else js "false"])) rows)
  /\ (forall v, In QUOTE v \/ In COMMA v \/ In LF v ->
        esc (Some v) = [QUOTE] ++ doubleQuotes v ++ [QUOTE])
  /\ (forall v, ~ (In QUOTE v \/ In COMMA v \/ In LF v) -> esc (Some v) = v)
  /\ (forallb carriageSafe rows = true ->
      parseCSV (toCSV rows)
      = [js "createdAt"; js "name"; js "description"; js "dueDate";
         js "priority"; js "status"; js "devNotes"; js "pinned"]
        :: map (fun r =>
                  [createdAt r; name r; description r;
                   match dueDate r with Some d => d | None => [] end;
                   priority r; status r; devNotes r;
                   if pinned r then js "true" else js "false"]) rows).
Proof.
  split; [reflexivity|].
  split; [intros v H; unfold esc; rewrite (proj1 (esc_quotes v) H); reflexivity|].
  split; [intros v H; unfold esc; rewrite (proj2 (esc_quotes v) H); reflexivity|].
  intros S. rewrite toCSV_writeCSV.
  change (map cells rows)
    with (map (fun r =>
                 [createdAt r; name r; description r;
                  match dueDate r with Some d => d | None => [] end;
                  priority r; status r; devNotes r;
                  if pinned r then js "true" else js "false"]) rows).
  apply table_reads_back.
  - constructor; [split; discriminate|].
    apply Forall_forall. intros row H. apply in_map_iff in H.
    destruct H as [r [<- _]]. split; [discriminate|].
    simpl. destruct (pinned r); discriminate.
  - constructor; [reflexivity|].
    apply Forall_forall. intros row H. apply in_map_iff in H.
    destruct H as [r [<- Hr]].
    rewrite forallb_forall in S. specialize (S r Hr). unfold carriageSafe in S.
    cbn [forallb] in S |- *. rewrite !andb_true_iff in S.
    destruct S as [S1 [S2 [S3 [S4 [S5 [S6 [S7 _]]]]]]].
    rewrite S1, S2, S3, S4, S5, S6, S7. destruct (pinned r); reflexivity.
Qed.

(** The amended C8 at two records whose fields hold a comma, double
    quotes, a line feed and a carriage return before a line feed. *)
Lemma csv_export_witness :
  forallb carriageSafe csvSample = true
  /\ nth_error (parseCSV (toCSV csvSample)) 1
     = Some [js "2024-03-01T09:00:00.000Z"; js "Doe, Jane";
             js "a 3" ++ [QUOTE] ++ js " bracket";
             js "2024-03-05T00:00:00.000Z"; js "High"; js "New";
             js "line one" ++ [CR; LF] ++ js "line two"; js "true"]
  /\ parseCSV (toCSV csvSample)
     = [js "createdAt"; js "name"; js "description"; js "dueDate";
        js "priority"; js "status"; js "devNotes"; js "pinned"]
       :: map (fun r =>
                 [createdAt r; name r; description r;
                  match dueDate r with Some d => d | None => [] end;
                  priority r; status r; devNotes r;
                  if pinned r then js "true" else js "false"]) csvSample.
Proof.
  split; [reflexivity|]. split; [reflexivity|].
  apply (proj2 (proj2 (proj2 (csv_export csvSample)))). reflexivity.
Defined.

(* ================================================================== *)
(** * Further properties *)

(** X1. The query returns the records that match the filter, rearranged: none
    is added, none is lost, and the output is no longer than the input. *)
Theorem query_keeps_matches (rt : Runtime) (reqs : list Request)
    (search statusFilter priorityFilter sort : jsstring) :
  Permutation
    (filter (matchesFilter rt (trim (toLowerCase rt search)) statusFilter priorityFilter)
       reqs)
    (filtered rt reqs search statusFilter priorityFilter sort)
  /\ (List.length (filtered rt reqs search statusFilter priorityFilter sort)
      <= List.length reqs)%nat.
Proof.
  unfold filtered, sortRequests. cbv zeta. split.
  - apply Array_sort_perm.
  - rewrite <- (Permutation_length (Array_sort_perm _ _)). apply filter_length_le.
Qed.

(** X2. With sort keys that order, the sort is stable: records that the
    comparator never puts one after the other keep the order they had in
    the collection, in every array that ECMA-262 lets the engine return. *)
Theorem sort_is_stable (rt : Runtime) (sort : jsstring) (P : Request -> bool)
    (reqs : list Request) :
  forallb (keyed rt sort) reqs = true ->
  (forall x y, P x = true -> P y = true ->
     SortCompare (compareRequests rt sort x y) <> Gt) ->
  filter P (sortRequests rt reqs sort) = filter P reqs
  /\ forall out, SortResult (compareRequests rt sort) reqs out ->
                 filter P out = filter P reqs.
Proof.
  intros K H.
  assert (E : filter P (sortRequests rt reqs sort) = filter P reqs)
    by (apply Array_sort_filter; exact H).
  split; [exact E|].
  intros out R. rewrite (proj2 (sortRequests_conforming rt sort reqs K) out R).
  exact E.
Qed.

(** X2 at the two unpinned urgent records of a sample. *)
Lemma sort_is_stable_witness :
  map id (filter isUrgent prioritySample) = [js "b"; js "e"]
  /\ filter isUrgent (sortRequests utcHost prioritySample (js "priority"))
     = filter isUrgent prioritySample.
Proof.
  split; [reflexivity|].
  refine (proj1 (sort_is_stable utcHost (js "priority") isUrgent prioritySample
                   eq_refl _)).
  intros x y Hx Hy. unfold isUrgent in *.
  apply andb_true_iff in Hx. destruct Hx as [Hx Px].
  apply andb_true_iff in Hy. destruct Hy as [Hy Py].
  apply streq_eq in Hx. apply streq_eq in Hy.
  unfold compareRequests, compareBy. simpl. rewrite Hx, Hy.
  destruct (pinned x), (pinned y); discriminate.
Defined.

(** ** The other sort keys *)

(** X3. With priorities among the four of the application, the collection
    sorted by [priority] is, on each side of the pinned split, in
    non-increasing order of rank. *)
Theorem priority_sorted (rt : Runtime) (reqs : list Request) :
  forallb (fun r => ordinary (priorityRank (priority r))) reqs = true ->
  forall i j a b, (i < j)%nat ->
    nth_error (sortRequests rt reqs (js "priority")) i = Some a ->
    nth_error (sortRequests rt reqs (js "priority")) j = Some b ->
    pinned a = pinned b ->
    Num_le (priorityRank (priority b)) (priorityRank (priority a)) = true.
Proof.
  intros V.
  apply (sortRequests_key_order rt (js "priority")
           (fun r => priorityRank (priority r)) false (fun _ _ => eq_refl) reqs V).
Qed.

(** X3 at a sample with three ranks. *)
Lemma priority_sorted_witness :
  map id (sortRequests utcHost prioritySample (js "priority"))
  = [js "d"; js "b"; js "e"; js "c"; js "a"]
  /\ forall i j a b, (i < j)%nat ->
       nth_error (sortRequests utcHost prioritySample (js "priority")) i = Some a ->
       nth_error (sortRequests utcHost prioritySample (js "priority")) j = Some b ->
       pinned a = pinned b ->
       Num_le (priorityRank (priority b)) (priorityRank (priority a)) = true.
Proof.
  split; [reflexivity|].
  apply (priority_sorted utcHost prioritySample). reflexivity.
Defined.



(** ** The handlers on their successful paths *)

(** X5. A submission with a name and a description prepends the record the form
    describes: trimmed name and description, status [New], no notes, not
    pinned, synced exactly when no endpoint is configured.  The records
    already there follow unchanged. *)
Theorem create_prepends (rt : Runtime) (SHEETS_ENDPOINT newId : jsstring) (now : Z)
    (due : option jsstring) (s : State) :
  nonEmpty (trim (formName s)) = true ->
  nonEmpty (trim (formDesc s)) = true ->
  dueOfForm rt (formDue s) = Some due ->
  requests (snd (submitRequest_begin rt SHEETS_ENDPOINT newId now s))
  = newRequest rt SHEETS_ENDPOINT newId now due s :: requests s
  /\ fst (submitRequest_begin rt SHEETS_ENDPOINT newId now s)
     = if nonEmpty SHEETS_ENDPOINT
       then SubmitPushing (newRequest rt SHEETS_ENDPOINT newId now due s)
       else SubmitLocal.
Proof.
  intros Hn Hd Hdue. unfold submitRequest_begin.
  rewrite Hn, Hd. cbn [negb]. cbv zeta. cbn [formDue setLoadingSubmit].
  rewrite Hdue. unfold newRequest.
  destruct (nonEmpty SHEETS_ENDPOINT); split; reflexivity.
Qed.

(** X5 at a form with a due date, no endpoint configured. *)
Lemma create_prepends_witness :
  map name (requests (snd (submitRequest_begin utcHost [] (js "id-1") 1709283600000 todayForm)))
  = [js "Alice"; js "Alice"]
  /\ map dueDate (requests (snd (submitRequest_begin utcHost [] (js "id-1") 1709283600000 todayForm)))
     = [Some (js "2024-03-01T00:00:00.000Z"); None]
  /\ requests (snd (submitRequest_begin utcHost [] (js "id-1") 1709283600000 todayForm))
     = newRequest utcHost [] (js "id-1") 1709283600000
         (Some (js "2024-03-01T00:00:00.000Z")) todayForm
       :: requests todayForm.
Proof.
  split; [reflexivity|]. split; [reflexivity|].
  apply (create_prepends utcHost [] (js "id-1") 1709283600000
           (Some (js "2024-03-01T00:00:00.000Z")) todayForm); reflexivity.
Defined.

(** X6. A retry that resolves marks the record synced and alters no other
    field of any record. *)
Theorem retry_success_marks_synced (SHEETS_ENDPOINT : jsstring) (req : Request)
    (res : Response) (s : State) :
  nonEmpty SHEETS_ENDPOINT = true ->
  requests (retrySync SHEETS_ENDPOINT req (Responded res) s)
  = markSynced (id req) true (requests s)
  /\ map (withSynced false) (requests (retrySync SHEETS_ENDPOINT req (Responded res) s))
     = map (withSynced false) (requests s)
  /\ Forall (fun r => id r = id req -> synced r = true)
       (requests (retrySync SHEETS_ENDPOINT req (Responded res) s)).
Proof.
  intros E. unfold retrySync. rewrite E. cbn [negb].
  split; [reflexivity|]. split.
  - cbn [requests pushToast setToasts setRequests]. unfold markSynced.
    rewrite map_map. apply map_ext. intros r.
    destruct (streq (id r) (id req)); reflexivity.
  - apply markSynced_spec.
Qed.

(** X6 at a store of two unsynced records. *)
Lemma retry_success_marks_synced_witness :
  map synced (requests (retrySync endpoint badDue (Responded opaqueResponse) unsyncedStore))
  = [false; true]
  /\ map (withSynced false)
       (requests (retrySync endpoint badDue (Responded opaqueResponse) unsyncedStore))
     = map (withSynced false) (requests unsyncedStore).
Proof.
  split; [reflexivity|].
  apply (retry_success_marks_synced endpoint badDue opaqueResponse unsyncedStore).
  reflexivity.
Defined.

(** A record read back from the row written for it is the record. *)
Lemma Request_of_JSON_of_Request (r : Request) :
  Request_of_JSON (JSON_of_Request r) = r.
Proof. destruct r as [i c n d [due|] p st dn pin syn]; reflexivity. Qed.

Lemma rows_decode (remote : list Request) :
  map (fun r => withSynced true (Request_of_JSON r)) (map JSON_of_Request remote)
  = map (withSynced true) remote.
Proof.
  rewrite map_map. apply map_ext. intros r.
  rewrite Request_of_JSON_of_Request. reflexivity.
Qed.

(** The collection after a pull that carries the rows of [remote]. *)
Lemma refresh_success_rows (res : Response) (data : JSON) (remote : list Request)
    (s : State) :
  json res = Some data ->
  getProp data (js "rows") = Some (JArray (map JSON_of_Request remote)) ->
  requests (refreshFromSheet_settle (Responded res) s) = map (withSynced true) remote.
Proof.
  intros Hj Hr. unfold refreshFromSheet_settle. cbv zeta. rewrite Hj, Hr.
  cbn [ToBoolean isArray negb orb items].
  cbn [requests setLoadingRefresh pushToast setToasts setRequests].
  apply rows_decode.
Qed.

(** X7. A pull whose body carries, under [rows], the rows of a list of
    records replaces the whole collection with those records, each marked
    synced, whatever the collection held; it reports success and resets
    the loading flag. *)
Theorem refresh_success_overwrites (res : Response) (data : JSON)
    (remote : list Request) (s : State) :
  json res = Some data ->
  getProp data (js "rows") = Some (JArray (map JSON_of_Request remote)) ->
  requests (refreshFromSheet_settle (Responded res) s) = map (withSynced true) remote
  /\ toasts (refreshFromSheet_settle (Responded res) s)
     = toasts s ++ [{| message := js "Inbox refreshed"; tone := js "success" |}]
  /\ loadingRefresh (refreshFromSheet_settle (Responded res) s) = false.
Proof.
  intros Hj Hr. unfold refreshFromSheet_settle. cbv zeta. rewrite Hj, Hr.
  cbn [ToBoolean isArray negb orb items].
  cbn [requests toasts loadingRefresh setLoadingRefresh pushToast setToasts setRequests].
  rewrite rows_decode. repeat split.
Qed.

(** X7 at a body of two records, over a store of two others. *)
Lemma refresh_success_overwrites_witness :
  map id (requests unsyncedStore) = [js "a"; js "b"]
  /\ requests (refreshFromSheet_settle
                 (Responded (rowsResponse [sampleRequest "r1" None false;
                                           withSynced false (sampleRequest "r2" None true)]))
                 unsyncedStore)
     = [sampleRequest "r1" None false; sampleRequest "r2" None true].
Proof.
  split; [reflexivity|].
  apply (refresh_success_overwrites
           (rowsResponse [sampleRequest "r1" None false;
                          withSynced false (sampleRequest "r2" None true)])
           (JObject [(js "rows",
                      JArray (map JSON_of_Request
                                [sampleRequest "r1" None false;
                                 withSynced false (sampleRequest "r2" None true)]))])
           [sampleRequest "r1" None false;
            withSynced false (sampleRequest "r2" None true)]
           unsyncedStore); reflexivity.
Defined.

(** X8. An update rewrites only the record with the given id, and of it only
    the fields the changes carry: id, creation stamp, name, description and
    due date of every record stay, and so does every other record. *)
Theorem update_is_narrow (i : jsstring) (changes : Changes) (s : State) :
  map identity (requests (updateRequest i changes s)) = map identity (requests s)
  /\ filter (fun r => negb (streq (id r) i)) (requests (updateRequest i changes s))
     = filter (fun r => negb (streq (id r) i)) (requests s)
  /\ filter (fun r => streq (id r) i) (requests (updateRequest i changes s))
     = map (fun r => merge r changes) (filter (fun r => streq (id r) i) (requests s)).
Proof.
  unfold updateRequest. cbv zeta. cbn [requests setSelected setRequests].
  induction (requests s) as [|r l [IH1 [IH2 IH3]]]; [repeat split|].
  cbn [map filter].
  destruct (streq (id r) i) eqn:E; cbn [negb];
    change (id (merge r changes)) with (id r); rewrite ?E; cbn [negb];
    rewrite IH1, IH2, IH3; repeat split.
Qed.

(** X9. After the start-up schedule the collection is the stored one when the
    slot holds an array, and the empty one when the slot is empty, corrupt
    or holds something else; the flag is set and the slot holds that
    collection. *)
Theorem startup_loads (sl : Slot) :
  requests (rendered (run sl startup)) = loadResult sl
  /\ hydrated (rendered (run sl startup)) = true
  /\ slot (run sl startup) = SlotRows (loadResult sl)
  /\ rev (history (run sl startup))
     = [Rendered [] false; Loaded; Rendered (loadResult sl) true; Saved (loadResult sl)].
Proof. destruct sl; repeat split. Qed.

(* ================================================================== *)
(** * Toasts *)

Lemma filter_all {A : Type} (f : A -> bool) (l : list A) :
  forallb f l = true -> filter f l = l.
Proof.
  induction l as [|x l IH]; simpl; [reflexivity|].
  intros H. apply andb_true_iff in H. destruct H as [Hx Hl].
  rewrite Hx, IH by exact Hl. reflexivity.
Qed.

(** X10. Dismissing a toast, by its button or by its timer, removes the
    toasts of that id, all of them, and keeps the others in their order;
    when the id is
    carried by no other toast, a toast pushed and then dismissed leaves the
    list as it was.  Dismissing twice is dismissing once, and two
    dismissals commute. *)
Theorem toast_dismissal (newId i j : jsstring) (toast : Toast)
    (t : list useToasts.Item) :
  (forallb (fun x => negb (streq (useToasts.id x) newId)) t = true ->
   useToasts.remove newId (useToasts.push newId toast t) = t)
  /\ useToasts.remove i (useToasts.remove i t) = useToasts.remove i t
  /\ useToasts.remove i (useToasts.remove j t) = useToasts.remove j (useToasts.remove i t)
  /\ (streq newId i = false ->
      useToasts.remove i (useToasts.push newId toast t)
      = useToasts.push newId toast (useToasts.remove i t))
  /\ forallb (fun x => negb (streq (useToasts.id x) i)) (useToasts.remove i t) = true.
Proof.
  unfold useToasts.remove, useToasts.push. destruct toast as [msg tn].
  repeat split.
  - intros F. rewrite filter_app. simpl. rewrite streq_refl. simpl.
    rewrite app_nil_r. apply filter_all. exact F.
  - induction t as [|x t IH]; simpl; [reflexivity|].
    destruct (streq (useToasts.id x) i) eqn:E; simpl; rewrite ?E; simpl; rewrite IH; reflexivity.
  - induction t as [|x t IH]; simpl; [reflexivity|].
    destruct (streq (useToasts.id x) i) eqn:Ei, (streq (useToasts.id x) j) eqn:Ej;
      simpl; rewrite ?Ei, ?Ej; simpl; rewrite IH; reflexivity.
  - intros N. rewrite filter_app. simpl. rewrite N. reflexivity.
  - apply forallb_forall. intros x H. apply filter_In in H. apply H.
Qed.

(* ================================================================== *)
(** * Opening and closing *)

(** X11. Escape closes the drawer and the mobile form together and touches
    nothing else; any other key, and any key while neither is open, leaves
    the state as it is.  Opening a card (by click, Enter or Space) while
    nothing is open and then pressing Escape gives back the state there
    was. *)
Theorem escape_closes (key : jsstring) (req : Request) (s : State) :
  escEnabled (keydown (js "Escape") s) = false
  /\ keydown (js "Escape") s = setFormOpenMobile false (setSelected None s)
  /\ (streq key (js "Escape") = false -> keydown key s = s)
  /\ (escEnabled s = false ->
      keydown key s = s
      /\ keydown (js "Escape") (cardClick req s) = s
      /\ keydown (js "Escape") (cardKeyDown (js "Enter") req s) = s
      /\ keydown (js "Escape") (cardKeyDown (js " ") req s) = s)
  /\ (streq key (js "Enter") || streq key (js " ") = false ->
      cardKeyDown key req s = s).
Proof.
  unfold keydown, escEnabled, onClose, cardClick, cardKeyDown.
  destruct s as [rq hy sel ts fn fd fdu fp fo ls lr]; simpl.
  split; [destruct sel, fo; reflexivity|].
  split; [destruct sel, fo; reflexivity|].
  split; [intros N; rewrite N; destruct sel, fo; reflexivity|].
  split.
  - intros E. destruct sel, fo; try discriminate. repeat split.
  - intros N. rewrite N. reflexivity.
Qed.

(* ================================================================== *)
(** * Quick actions *)

(** X12. A card always offers at least one quick action; every action it
    offers sets a status other than the one the record has; and once an
    action is taken, the record no longer offers it. *)
Theorem quick_actions_progress (req : Request) (qa : QuickAction) :
  shownActions req <> []
  /\ (In qa (shownActions req) ->
      target qa <> status req
      /\ forall qb, In qb (shownActions (merge req (statusChange (target qa)))) ->
                    label qb <> label qa).
Proof.
  split.
  - unfold shownActions, quickActions. simpl.
    destruct (streq (status req) (js "New")); [discriminate|].
    destruct (streq (status req) (js "Done")) eqn:D; simpl; [|discriminate].
    apply streq_eq in D. rewrite D. discriminate.
  - intros H. apply filter_In in H. destruct H as [H S].
    assert (T : target qa <> status req).
    { simpl in H. destruct H as [<-|[<-|[<-|[]]]]; simpl in S |- *.
      - apply streq_eq in S. rewrite S. discriminate.
      - intros E. rewrite <- E in S. discriminate.
      - intros E. rewrite <- E in S. discriminate. }
    split; [exact T|].
    intros qb Hb.
    simpl in H. destruct H as [<-|[<-|[<-|[]]]]; cbn in Hb;
      repeat (destruct Hb as [<-|Hb]; [vm_compute; discriminate|]);
      destruct Hb.
Qed.

(** X12 at a new record and its Done button. *)
Lemma quick_actions_progress_witness :
  map label (shownActions noDue) = [js "Start"; js "Done"; js "Archive"]
  /\ map label (shownActions (merge noDue (statusChange (js "Done")))) = [js "Archive"]
  /\ js "Done" <> status noDue.
Proof.
  split; [reflexivity|]. split; [reflexivity|].
  apply (quick_actions_progress noDue
           {| label := js "Done"; target := js "Done"; show := true |}).
  right. left. reflexivity.
Defined.

(* ================================================================== *)
(** * The detail drawer *)

(** X13. While the drawer shows a record of the collection, it keeps doing
    so under every update; an edit made in the drawer is merged into the
    copy the drawer shows and into the stored records of that id alike;
    and a click on a card of the collection opens the drawer on such a
    record. *)
Theorem drawer_stays_coherent (i : jsstring) (changes : Changes) (req : Request)
    (s : State) :
  (coherent s -> coherent (updateRequest i changes s))
  /\ (coherent s -> coherent (drawerEdit changes s))
  /\ (forall sel, selected s = Some sel ->
        selected (drawerEdit changes s) = Some (merge sel changes)
        /\ requests (drawerEdit changes s)
           = map (fun r => if streq (id r) (id sel) then merge r changes else r)
               (requests s))
  /\ (In req (requests s) -> coherent (cardClick req s)).
Proof.
  assert (U : forall j, coherent s -> coherent (updateRequest j changes s)).
  { intros j. unfold coherent, updateRequest. cbv zeta.
    cbn [selected requests setSelected setRequests].
    destruct (selected s) as [sel|]; [|auto].
    intros H. destruct (streq (id sel) j) eqn:E.
    - apply in_map_iff. exists sel. rewrite E. auto.
    - apply in_map_iff. exists sel. rewrite E. auto. }
  split; [apply U|]. split; [|split].
  - unfold drawerEdit. destruct (selected s) as [sel|] eqn:E; [|auto].
    apply U.
  - intros sel E. unfold drawerEdit. rewrite E. unfold updateRequest. cbv zeta.
    cbn [selected requests setSelected setRequests]. rewrite E, streq_refl.
    split; reflexivity.
  - intros H. exact H.
Qed.

(* ================================================================== *)
(** * The counts of the dashboard *)

Lemma count_cons (s : jsstring) (r : Request) (l : list Request) :
  List.length (filter (fun x => streq (status x) s) (r :: l))
  = ((if streq (status r) s then 1 else 0)
     + List.length (filter (fun x => streq (status x) s) l))%nat.
Proof. simpl. destruct (streq (status r) s); reflexivity. Qed.

Lemma countsTotal_cons (r : Request) (l : list Request) :
  countsTotal (r :: l)
  = ((if knownStatus r then 1 else 0) + countsTotal l)%nat.
Proof.
  unfold countsTotal, counts, statuses, knownStatus.
  cbn [map fold_right snd existsb]. rewrite !count_cons.
  repeat match goal with
  | |- context [streq (status r) ?a] =>
      let E := fresh "E" in
      destruct (streq (status r) a) eqn:E;
      [apply streq_eq in E; rewrite E; cbn; lia|]
  end.
  cbn in *.
  repeat match goal with H : streq _ _ = false |- _ => rewrite H; clear H end.
  cbn. lia.
Qed.

(** X14. The four counts of the stats card add up to the number of records
    whose status is one of the four, which is at most the total shown
    beside them, and is the total exactly when every record has such a
    status: a record with another status is in the total and in no
    count. *)
Theorem stats_counts_add_up (requests : list Request) :
  countsTotal requests = List.length (filter knownStatus requests)
  /\ (countsTotal requests <= List.length requests)%nat
  /\ (countsTotal requests = List.length requests
      <-> forallb knownStatus requests = true).
Proof.
  induction requests as [|r l [IH1 [IH2 IH3]]].
  - repeat split; reflexivity.
  - rewrite countsTotal_cons. cbn [filter forallb List.length].
    destruct (knownStatus r); cbn [List.length andb].
    + split; [lia|]. split; [lia|]. rewrite <- IH3. lia.
    + split; [lia|]. split; [lia|]. split; [lia|discriminate].
Qed.

(** X15. The numbers of the triage strip: the records due today and the
    overdue records together are never more than the collection; and the
    buckets of a part of the collection are the parts of its buckets. *)
Theorem triage_counts_bounded (rt : Runtime) (now : Z) (reqs : list Request) :
  (List.length (overdue (triageBuckets rt now reqs))
   + List.length (dueToday (triageBuckets rt now reqs))
   <= List.length reqs)%nat
  /\ (forall P : Request -> bool,
        overdue (triageBuckets rt now (filter P reqs))
        = filter P (overdue (triageBuckets rt now reqs))
        /\ dueToday (triageBuckets rt now (filter P reqs))
           = filter P (dueToday (triageBuckets rt now reqs))).
Proof.
  split.
  - cbn [overdue dueToday triageBuckets].
    induction reqs as [|r l IH]; [reflexivity|].
    cbn [filter List.length].
    pose proof (overdue_not_today rt now r) as D.
    destruct (isOverdue rt now r); cbn [List.length].
    + rewrite D by reflexivity. lia.
    + destruct (isToday rt now (dueDate r)); cbn [List.length]; lia.
  - intros P. cbn [overdue dueToday triageBuckets].
    split; induction reqs as [|r l IH]; try reflexivity; cbn [filter];
      destruct (P r) eqn:E; cbn [filter];
      match goal with |- context [if ?b then _ else _] =>
        destruct b; cbn [filter]; rewrite ?E, IH; reflexivity end.
Qed.

(* ================================================================== *)
(** * Triage by local day *)

(** Year, month and date are read off the day number. *)
Lemma calendar_of_Day (t u : Z) :
  Day t = Day u ->
  YearFromTime t = YearFromTime u
  /\ MonthFromTime t = MonthFromTime u
  /\ DateFromTime t = DateFromTime u.
Proof.
  intros E.
  assert (Y : YearFromTime t = YearFromTime u) by (unfold YearFromTime; rewrite E; reflexivity).
  assert (W : DayWithinYear t = DayWithinYear u) by (unfold DayWithinYear; rewrite E, Y; reflexivity).
  assert (L : InLeapYear t = InLeapYear u) by (unfold InLeapYear; rewrite Y; reflexivity).
  assert (M : MonthFromTime t = MonthFromTime u) by (unfold MonthFromTime; rewrite W, L; reflexivity).
  repeat split; auto.
  unfold DateFromTime. rewrite W, M, L. reflexivity.
Qed.

Lemma Day_lt_midnight (t d : Z) : t < d * msPerDay <-> Day t < d.
Proof.
  unfold Day, msPerDay. split; intros H.
  - apply Z.div_lt_upper_bound; lia.
  - pose proof (Z.mul_div_le t 86400000 ltac:(lia)).
    pose proof (Z.mod_pos_bound t 86400000 ltac:(lia)).
    pose proof (Z.div_mod t 86400000 ltac:(lia)). lia.
Qed.

Section LocalDay.
Context (rt : Runtime) (now : Z).
(** The midnight that [setHours] computes is a valid time value. *)
Hypothesis inRange : isNaN (today rt now) = false.

Lemma today_value :
  today rt now = Fin (localDay rt now * msPerDay - LocalTZA rt).
Proof.
  destruct (today_cases rt now) as [E|E]; [rewrite E in inRange; discriminate|exact E].
Qed.

Lemma isToday_by_day (r : Request) (t : Z) :
  truthy (dueDate r) = true -> newDateOpt rt (dueDate r) = Fin t ->
  isToday rt now (dueDate r) = (localDay rt t =? localDay rt now).
Proof.
  intros T D. unfold isToday. rewrite T, D, today_value. cbn.
  set (m := localDay rt now * msPerDay - LocalTZA rt).
  assert (Dm : Day (LocalTime rt m) = localDay rt now).
  { unfold m, LocalTime at 1.
    replace (localDay rt now * msPerDay - LocalTZA rt + LocalTZA rt)
      with (localDay rt now * msPerDay) by lia.
    apply Day_midnight. }
  destruct (localDay rt t =? localDay rt now) eqn:E.
  - apply Z.eqb_eq in E.
    destruct (calendar_of_Day (LocalTime rt t) (LocalTime rt m)) as [Y [M Dt]];
      [rewrite Dm; exact E|].
    rewrite Y, M, Dt, !Z.eqb_refl. reflexivity.
  - apply Z.eqb_neq in E.
    destruct (YearFromTime (LocalTime rt t) =? _) eqn:Ey; [|reflexivity].
    destruct (MonthFromTime (LocalTime rt t) =? _) eqn:Em; [|reflexivity].
    destruct (DateFromTime (LocalTime rt t) =? _) eqn:Ed; [|reflexivity].
    exfalso. apply E. apply Z.eqb_eq in Ey, Em, Ed.
    rewrite <- Dm. unfold localDay. apply calendar_inj; assumption.
Qed.

Lemma isOverdue_by_day (r : Request) (t : Z) :
  truthy (dueDate r) = true -> newDateOpt rt (dueDate r) = Fin t ->
  isOverdue rt now r
  = (localDay rt t <? localDay rt now) && negb (streq (status r) (js "Done")).
Proof.
  intros T D. unfold isOverdue. rewrite T, D, today_value. cbn.
  f_equal.
  destruct (Z.ltb_spec (localDay rt t) (localDay rt now)) as [H|H].
  - apply Z.ltb_lt. apply Day_lt_midnight in H.
    unfold localDay, LocalTime, msPerDay in *. clear - H. lia.
  - apply Z.ltb_ge.
    assert (G : ~ LocalTime rt t < localDay rt now * msPerDay)
      by (rewrite Day_lt_midnight; unfold localDay in *; clear - H; lia).
    unfold localDay, LocalTime, msPerDay in *. clear - G. lia.
Qed.
End LocalDay.

(** X16. Triage reads the local calendar: a record whose due date parses
    is due today exactly when its due instant falls on the local day of the
    evaluation time, and overdue exactly when it falls on an earlier local
    day and the status is not Done. *)
Theorem triage_by_local_day (rt : Runtime) (now : Z) (r : Request) (t : Z) :
  isNaN (today rt now) = false ->
  truthy (dueDate r) = true ->
  newDateOpt rt (dueDate r) = Fin t ->
  isToday rt now (dueDate r) = (localDay rt t =? localDay rt now)
  /\ isOverdue rt now r
     = (localDay rt t <? localDay rt now) && negb (streq (status r) (js "Done")).
Proof.
  intros R T D. split.
  - apply isToday_by_day; assumption.
  - apply isOverdue_by_day; assumption.
Qed.

(** X16 at a record due at 02:59 UTC on the first of March, seen from a
    host three hours behind UTC later that morning. *)
Lemma triage_by_local_day_witness :
  localDay westHost 1709261999999 = 19782
  /\ localDay westHost 1709283600000 = 19783
  /\ isToday westHost 1709283600000
       (dueDate (sampleRequest "e" (Some "2024-03-01T02:59:59.999Z"%string) false))
     = false
  /\ isOverdue westHost 1709283600000
       (sampleRequest "e" (Some "2024-03-01T02:59:59.999Z"%string) false)
     = true.
Proof.
  split; [reflexivity|]. split; [reflexivity|].
  destruct (triage_by_local_day westHost 1709283600000
              (sampleRequest "e" (Some "2024-03-01T02:59:59.999Z"%string) false)
              1709261999999 eq_refl eq_refl eq_refl) as [A B].
  rewrite A, B. split; reflexivity.
Defined.

(** X17. Time only moves records towards overdue: a record that is overdue
    stays overdue at every later evaluation time, and a record due today
    that is not Done is overdue from the next local day on. *)
Theorem triage_over_time (rt : Runtime) (now later : Z) (r : Request) :
  isNaN (today rt now) = false ->
  isNaN (today rt later) = false ->
  (now <= later -> isOverdue rt now r = true -> isOverdue rt later r = true)
  /\ (localDay rt now < localDay rt later ->
      isToday rt now (dueDate r) = true ->
      streq (status r) (js "Done") = false ->
      isOverdue rt later r = true
      /\ isToday rt later (dueDate r) = false).
Proof.
  intros R1 R2.
  assert (Mono : now <= later -> localDay rt now <= localDay rt later).
  { intros H. unfold localDay, LocalTime, Day, msPerDay.
    apply Z.div_le_mono; lia. }
  destruct (truthy (dueDate r)) eqn:T.
  2:{ unfold isOverdue, isToday. rewrite T. cbn. split; intros; discriminate. }
  destruct (newDateOpt_cases rt (dueDate r)) as [N|[t D]].
  { unfold isOverdue, isToday. rewrite T, N. cbn. split; intros; discriminate. }
  rewrite (isOverdue_by_day rt now R1 r t T D), (isOverdue_by_day rt later R2 r t T D).
  rewrite (isToday_by_day rt now R1 r t T D), (isToday_by_day rt later R2 r t T D).
  split.
  - intros H O. apply andb_true_iff in O. destruct O as [O S]. rewrite S.
    apply Z.ltb_lt in O. rewrite andb_true_r. apply Z.ltb_lt.
    specialize (Mono H). lia.
  - intros H E S. apply Z.eqb_eq in E. rewrite S. cbn. split.
    + rewrite andb_true_r. apply Z.ltb_lt. lia.
    + apply Z.eqb_neq. lia.
Qed.

(** X17 at a record due on the first of March, seen that day and the
    next. *)
Lemma triage_over_time_witness :
  isToday utcHost 1709283600000
    (dueDate (sampleRequest "a" (Some "2024-03-01T00:00:00.000Z"%string) false)) = true
  /\ isOverdue utcHost 1709370000000
       (sampleRequest "a" (Some "2024-03-01T00:00:00.000Z"%string) false) = true
  /\ isToday utcHost 1709370000000
       (dueDate (sampleRequest "a" (Some "2024-03-01T00:00:00.000Z"%string) false)) = false.
Proof.
  split; [reflexivity|].
  apply (triage_over_time utcHost 1709283600000 1709370000000
           (sampleRequest "a" (Some "2024-03-01T00:00:00.000Z"%string) false)
           eq_refl eq_refl); [vm_compute; reflexivity| reflexivity | reflexivity].
Defined.

(* ================================================================== *)
(** * The persistence effects: the slot catches up *)

Lemma lastPersist_snoc (es : list Effect) (reqs : list Request) (hyd : bool) :
  lastPersist (es ++ [PersistEffect reqs hyd]) = Some (reqs, hyd).
Proof.
  induction es as [|e es IH]; simpl; [reflexivity|]. rewrite IH. reflexivity.
Qed.

Lemma lastPersist_remount (es : list Effect) (reqs : list Request) (hyd : bool) :
  lastPersist (es ++ [LoadEffect; PersistEffect reqs hyd]) = Some (reqs, hyd).
Proof.
  induction es as [|e es IH]; simpl; [reflexivity|]. rewrite IH. reflexivity.
Qed.

Lemma hydrated_kept (q : list Update) (s : State) :
  ~ In (SetHydrated false) q ->
  hydrated s = true \/ In (SetHydrated true) q ->
  hydrated (fold_left applyUpdate q s) = true.
Proof.
  revert s. induction q as [|u q IH]; simpl; intros s N H.
  - destruct H as [H|[]]. exact H.
  - apply IH; [tauto|].
    destruct u as [f|[|]]; simpl.
    + destruct H as [H|[H|H]]; auto. discriminate.
    + auto.
    + exfalso. apply N. auto.
Qed.

Lemma Tracked_mount (sl : Slot) : Tracked (mount sl).
Proof. constructor; simpl; auto. Qed.

Lemma Tracked_runEffect (h : Hub) : Tracked h -> Tracked (runEffect h).
Proof.
  intros [P L Q]. unfold runEffect.
  destruct (effects h) as [|e rest] eqn:E; [constructor; rewrite ?E; auto|].
  simpl in P. destruct e as [|reqs hyd].
  - constructor; simpl.
    + destruct (lastPersist rest); exact P.
    + right. left. apply in_or_app. right.
      destruct (slot h); simpl; auto.
    + intros H. apply in_app_or in H. destruct H as [H|H]; [auto|].
      destruct (slot h); simpl in H; intuition discriminate.
  - assert (L' : In LoadEffect rest \/ In (SetHydrated true) (queue h)
                 \/ hydrated (rendered h) = true).
    { destruct L as [[L|L]|L]; auto. discriminate. }
    destruct hyd; simpl; constructor; simpl; auto;
      destruct (lastPersist rest) as [[r0 h0]|]; auto.
    + destruct P as [-> _]. reflexivity.
    + destruct P as [_ P]. intros H. rewrite H in P. discriminate.
Qed.

Lemma Tracked_render (h : Hub) : Tracked h -> Tracked (render h).
Proof.
  intros [P L Q]. unfold render.
  destruct (queue h) as [|u q] eqn:E; [constructor; rewrite ?E; auto|].
  constructor; simpl.
  - rewrite lastPersist_snoc. auto.
  - destruct L as [L|L].
    + left. apply in_or_app. auto.
    + right. right. apply (hydrated_kept (u :: q) (rendered h)); [exact Q|]. tauto.
  - auto.
Qed.

Lemma Tracked_step (h : Hub) (a : Action) : Tracked h -> Tracked (step h a).
Proof.
  destruct a as [| |f|]; simpl.
  - apply Tracked_runEffect.
  - apply Tracked_render.
  - intros [P L Q]. constructor; simpl; auto.
    + destruct L as [L|[L|L]]; auto. right. left. apply in_or_app. auto.
    + intros H. apply in_app_or in H. destruct H as [H|[H|[]]]; [auto|discriminate].
  - intros [P L Q]. constructor; simpl; auto.
    + rewrite lastPersist_remount. auto.
    + left. apply in_or_app. right. left. reflexivity.
Qed.

Lemma Tracked_run (acts : list Action) (h : Hub) :
  Tracked h -> Tracked (fold_left step acts h).
Proof.
  revert h. induction acts as [|a acts IH]; simpl; intros h H; auto.
  apply IH, Tracked_step, H.
Qed.

Lemma runEffect_spec (h : Hub) :
  effects (runEffect h) = tl (effects h)
  /\ rendered (runEffect h) = rendered h
  /\ (hd_error (effects h) <> Some LoadEffect -> queue (runEffect h) = queue h).
Proof.
  unfold runEffect. destruct (effects h) as [|[|reqs [|]] rest] eqn:E; simpl;
    rewrite ?E; repeat split; try reflexivity.
  intros N. exfalso. apply N. reflexivity.
Qed.

Lemma skipn_tl {A : Type} (n : nat) (l : list A) : skipn n (tl l) = skipn (S n) l.
Proof. destruct l; simpl; [destruct n; reflexivity | reflexivity]. Qed.

Lemma runEffects_spec (n : nat) (h : Hub) :
  Tracked h ->
  Tracked (runEffects n h)
  /\ effects (runEffects n h) = skipn n (effects h)
  /\ rendered (runEffects n h) = rendered h
  /\ (~ In LoadEffect (effects h) -> queue (runEffects n h) = queue h).
Proof.
  revert h. induction n as [|n IH]; intros h T.
  - simpl. auto.
  - cbn [runEffects].
    destruct (IH (runEffect h) (Tracked_runEffect h T)) as [A [B [C D]]].
    destruct (runEffect_spec h) as [E [R Q]].
    split; [exact A|]. split; [rewrite B, E; apply skipn_tl|].
    split; [rewrite C; exact R|].
    intros N. rewrite D.
    + apply Q. destruct (effects h) as [|e rest]; simpl; [discriminate|].
      intros X. apply N. left. congruence.
    + rewrite E. destruct (effects h) as [|e rest]; simpl; [auto|].
      intros X. apply N. right. exact X.
Qed.

Lemma drain_spec (h : Hub) :
  Tracked h ->
  Tracked (drain h) /\ effects (drain h) = [] /\ rendered (drain h) = rendered h.
Proof.
  intros T. unfold drain.
  destruct (runEffects_spec (List.length (effects h)) h T) as [A [B [C _]]].
  rewrite skipn_all in B. auto.
Qed.

(** X18. Whatever has happened since the mount, once the component comes
    to rest nothing is left queued or scheduled, the readiness flag is set,
    and the storage slot holds exactly the collection on screen: no change
    of the collection stays unsaved. *)
Theorem storage_catches_up (sl : Slot) (acts : list Action) :
  queue (settle (run sl acts)) = []
  /\ effects (settle (run sl acts)) = []
  /\ hydrated (rendered (settle (run sl acts))) = true
  /\ slot (settle (run sl acts))
     = SlotRows (requests (rendered (settle (run sl acts)))).
Proof.
  unfold settle.
  pose proof (Tracked_run acts (mount sl) (Tracked_mount sl)) as T0.
  fold (run sl acts) in T0. set (h0 := run sl acts) in *.
  destruct (drain_spec h0 T0) as [T1 [E1 R1]].
  set (h1 := drain h0) in *.
  pose proof (Tracked_render h1 T1) as T2.
  assert (Q2 : queue (render h1) = []).
  { unfold render. destruct (queue h1) eqn:E; [exact E|reflexivity]. }
  assert (E2 : ~ In LoadEffect (effects (render h1))).
  { unfold render. destruct (queue h1); simpl; rewrite E1; simpl; intuition discriminate. }
  set (h2 := render h1) in *.
  destruct (runEffects_spec (List.length (effects h2)) h2 T2) as [T3 [E3 [R3 Q3]]].
  fold (drain h2) in *. rewrite skipn_all in E3.
  specialize (Q3 E2).
  assert (H3 : hydrated (rendered (drain h2)) = true).
  { destruct (tracked_load _ T3) as [L|[L|L]]; [| |exact L].
    - rewrite E3 in L. destruct L.
    - rewrite Q3, Q2 in L. destruct L. }
  split; [rewrite Q3; exact Q2|]. split; [exact E3|]. split; [exact H3|].
  pose proof (tracked_persist _ T3) as P. rewrite E3 in P. simpl in P.
  apply P. exact H3.
Qed.

(* ================================================================== *)
(** * Submitting twice, and a submission that throws *)

Lemma submitRequest_begin_valid (rt : Runtime) (SHEETS_ENDPOINT newId : jsstring)
    (now : Z) (due : option jsstring) (s : State) :
  nonEmpty (trim (formName s)) = true ->
  nonEmpty (trim (formDesc s)) = true ->
  dueOfForm rt (formDue s) = Some due ->
  submitRequest_begin rt SHEETS_ENDPOINT newId now s
  = let s4 :=
      pushToast (js "Request added") (js "success")
        (setFormDue [] (setFormDesc []
           (setRequests (newRequest rt SHEETS_ENDPOINT newId now due s :: requests s)
              (setLoadingSubmit true s)))) in
    if nonEmpty SHEETS_ENDPOINT
    then (SubmitPushing (newRequest rt SHEETS_ENDPOINT newId now due s), s4)
    else (SubmitLocal, setFormOpenMobile false (setLoadingSubmit false s4)).
Proof.
  intros Hn Hd Hdue. unfold submitRequest_begin.
  rewrite Hn, Hd. cbn [negb]. cbv zeta. cbn [formDue setLoadingSubmit].
  rewrite Hdue. unfold newRequest.
  destruct (nonEmpty SHEETS_ENDPOINT); reflexivity.
Qed.

(** X19. After a submission that created a record, whatever became of its
    push, the form keeps the name and the priority, the description and
    the due date are cleared, the busy flag is down and the mobile form is
    closed; submitting again at once is rejected for its missing
    description and adds nothing. *)
Theorem resubmit_needs_description (rt : Runtime)
    (SHEETS_ENDPOINT newId nextId : jsstring) (now later : Z)
    (net again : FetchOutcome) (due : option jsstring) (s : State) :
  nonEmpty (trim (formName s)) = true ->
  nonEmpty (trim (formDesc s)) = true ->
  dueOfForm rt (formDue s) = Some due ->
  let s' := submitRequest rt SHEETS_ENDPOINT newId now net s in
  (formName s' = formName s /\ formPriority s' = formPriority s
   /\ formDesc s' = [] /\ formDue s' = []
   /\ loadingSubmit s' = false /\ formOpenMobile s' = false)
  /\ List.length (requests s') = S (List.length (requests s))
  /\ fst (submitRequest_begin rt SHEETS_ENDPOINT nextId later s') = SubmitInvalid
  /\ requests (submitRequest rt SHEETS_ENDPOINT nextId later again s') = requests s'
  /\ toasts (submitRequest rt SHEETS_ENDPOINT nextId later again s')
     = toasts s' ++ [{| message := js "Description is required"; tone := js "error" |}].
Proof.
  intros Hn Hd Hdue s'.
  assert (F : formName s' = formName s /\ formPriority s' = formPriority s
              /\ formDesc s' = [] /\ formDue s' = []
              /\ loadingSubmit s' = false /\ formOpenMobile s' = false).
  { subst s'. unfold submitRequest.
    rewrite (submitRequest_begin_valid rt SHEETS_ENDPOINT newId now due s Hn Hd Hdue).
    cbv zeta. destruct (nonEmpty SHEETS_ENDPOINT); [|repeat split].
    destruct net; repeat split. }
  assert (L : List.length (requests s') = S (List.length (requests s))).
  { subst s'. unfold submitRequest.
    rewrite (submitRequest_begin_valid rt SHEETS_ENDPOINT newId now due s Hn Hd Hdue).
    cbv zeta. destruct (nonEmpty SHEETS_ENDPOINT); [|reflexivity].
    destruct net; cbn; unfold markSynced; rewrite length_map; reflexivity. }
  destruct F as [F1 [F2 [F3 [F4 [F5 F6]]]]].
  assert (B : submitRequest_begin rt SHEETS_ENDPOINT nextId later s'
              = (SubmitInvalid, pushToast (js "Description is required") (js "error") s')).
  { unfold submitRequest_begin. rewrite F1, Hn, F3. reflexivity. }
  split; [repeat split; assumption|]. split; [exact L|].
  unfold submitRequest. rewrite B. repeat split.
Qed.

(** X19 at a form with a due date, with a push that fails. *)
Lemma resubmit_needs_description_witness :
  map id (requests (submitRequest utcHost endpoint (js "id-1") 1709283600000
                      NetworkError todayForm))
  = [js "id-1"; js "a"]
  /\ requests (submitRequest utcHost endpoint (js "id-2") 1709283700000 NetworkError
                 (submitRequest utcHost endpoint (js "id-1") 1709283600000
                    NetworkError todayForm))
     = requests (submitRequest utcHost endpoint (js "id-1") 1709283600000
                   NetworkError todayForm).
Proof.
  split; [reflexivity|].
  apply (resubmit_needs_description utcHost endpoint (js "id-1") (js "id-2")
           1709283600000 1709283700000 NetworkError NetworkError
           (Some (js "2024-03-01T00:00:00.000Z")) todayForm); reflexivity.
Defined.

(** X20. When the due field holds text that the runtime does not parse as a
    date, a submission that passed validation throws while it builds the
    record: no record is added, no toast is shown, the form keeps its
    content, and the busy flag set before the throw is never cleared. *)
Theorem invalid_due_aborts_submit (rt : Runtime) (SHEETS_ENDPOINT newId : jsstring)
    (now : Z) (net : FetchOutcome) (s : State) :
  nonEmpty (trim (formName s)) = true ->
  nonEmpty (trim (formDesc s)) = true ->
  nonEmpty (formDue s) = true ->
  newDate rt (formDue s) = NaN ->
  fst (submitRequest_begin rt SHEETS_ENDPOINT newId now s) = SubmitThrew
  /\ submitRequest rt SHEETS_ENDPOINT newId now net s = setLoadingSubmit true s
  /\ requests (submitRequest rt SHEETS_ENDPOINT newId now net s) = requests s
  /\ toasts (submitRequest rt SHEETS_ENDPOINT newId now net s) = toasts s
  /\ loadingSubmit (submitRequest rt SHEETS_ENDPOINT newId now net s) = true.
Proof.
  intros Hn Hd Hdue Hnan.
  assert (B : submitRequest_begin rt SHEETS_ENDPOINT newId now s
              = (SubmitThrew, setLoadingSubmit true s)).
  { unfold submitRequest_begin, dueOfForm. rewrite Hn, Hd. cbn [negb]. cbv zeta.
    rewrite Hdue, Hnan. reflexivity. }
  unfold submitRequest. rewrite B. repeat split.
Qed.

(** X20 at a due field that holds the word garbage. *)
Lemma invalid_due_aborts_submit_witness :
  newDate utcHost (formDue badDueForm) = NaN
  /\ requests (submitRequest utcHost endpoint (js "id-1") 1709283600000
                 (Responded opaqueResponse) badDueForm)
     = requests badDueForm
  /\ loadingSubmit (submitRequest utcHost endpoint (js "id-1") 1709283600000
                      (Responded opaqueResponse) badDueForm) = true.
Proof.
  split; [reflexivity|].
  pose proof (invalid_due_aborts_submit utcHost endpoint (js "id-1") 1709283600000
                (Responded opaqueResponse) badDueForm
                eq_refl eq_refl eq_refl eq_refl) as H.
  split; [apply H | apply H].
Defined.

(* ================================================================== *)
(** * A pull that lands while a push is in flight *)

(** X21. When a pull that carries the rows of a list of records succeeds
    between the start of a submission and the settling of its push, the
    collection after both is those records, marked synced, with the flag of
    the records of the new id set by the push; when none of them has the
    new id, the record just created is gone and the collection is exactly
    the records pulled. *)
Theorem pull_during_push (rt : Runtime) (SHEETS_ENDPOINT newId : jsstring) (now : Z)
    (net : FetchOutcome) (res : Response) (data : JSON) (remote : list Request)
    (due : option jsstring) (s : State) :
  nonEmpty SHEETS_ENDPOINT = true ->
  nonEmpty (trim (formName s)) = true ->
  nonEmpty (trim (formDesc s)) = true ->
  dueOfForm rt (formDue s) = Some due ->
  json res = Some data ->
  getProp data (js "rows") = Some (JArray (map JSON_of_Request remote)) ->
  exists newReq s1,
    submitRequest_begin rt SHEETS_ENDPOINT newId now s = (SubmitPushing newReq, s1)
    /\ id newReq = newId
    /\ requests s1 = newReq :: requests s
    /\ requests (submitRequest_settle newReq net
                   (refreshFromSheet_settle (Responded res) s1))
       = markSynced newId
           (match net with Responded _ => true | NetworkError => false end)
           (map (withSynced true) remote)
    /\ (forallb (fun r => negb (streq (id r) newId)) remote = true ->
        requests (submitRequest_settle newReq net
                    (refreshFromSheet_settle (Responded res) s1))
        = map (withSynced true) remote
        /\ ~ In newId (map id (requests (submitRequest_settle newReq net
                                 (refreshFromSheet_settle (Responded res) s1)))))
    /\ loadingSubmit (submitRequest_settle newReq net
                        (refreshFromSheet_settle (Responded res) s1)) = false
    /\ loadingRefresh (submitRequest_settle newReq net
                         (refreshFromSheet_settle (Responded res) s1)) = false.
Proof.
  intros He Hn Hd Hdue Hj Hr.
  rewrite (submitRequest_begin_valid rt SHEETS_ENDPOINT newId now due s Hn Hd Hdue).
  cbv zeta. rewrite He.
  eexists. eexists. split; [reflexivity|]. split; [reflexivity|].
  split; [reflexivity|].
  assert (R : forall s1, requests (refreshFromSheet_settle (Responded res) s1)
                         = map (withSynced true) remote).
  { intros s1. apply (refresh_success_rows res data remote s1 Hj Hr). }
  assert (E : forall newReq s2,
             requests (submitRequest_settle newReq net s2)
             = markSynced (id newReq)
                 (match net with Responded _ => true | NetworkError => false end)
                 (requests s2)).
  { intros newReq s2. unfold submitRequest_settle. destruct net; reflexivity. }
  rewrite E, R. cbn [id newRequest].
  split; [reflexivity|]. split.
  - intros F.
    assert (M : markSynced newId
                  (match net with Responded _ => true | NetworkError => false end)
                  (map (withSynced true) remote)
                = map (withSynced true) remote).
    { unfold markSynced. rewrite map_map. apply map_ext_in. intros r Hin.
      rewrite forallb_forall in F. specialize (F r Hin).
      change (id (withSynced true r)) with (id r).
      destruct (streq (id r) newId); [discriminate|reflexivity]. }
    rewrite M. split; [reflexivity|].
    rewrite map_map. intros Hin. apply in_map_iff in Hin.
    destruct Hin as [r [Hid Hin]].
    rewrite forallb_forall in F. specialize (F r Hin).
    change (id (withSynced true r)) with (id r) in Hid.
    rewrite Hid, streq_refl in F. discriminate.
  - unfold submitRequest_settle, refreshFromSheet_settle. cbv zeta. rewrite Hj, Hr.
    destruct net; split; reflexivity.
Qed.

(** X21 at a pull of two records. *)
Lemma pull_during_push_witness :
  map id (requests
            (submitRequest_settle
               (newRequest utcHost endpoint (js "id-1") 1709283600000
                  (Some (js "2024-03-01T00:00:00.000Z")) todayForm)
               (Responded opaqueResponse)
               (refreshFromSheet_settle
                  (Responded (rowsResponse [sampleRequest "r1" None false;
                                            sampleRequest "r2" None true]))
                  (snd (submitRequest_begin utcHost endpoint (js "id-1")
                          1709283600000 todayForm)))))
  = [js "r1"; js "r2"]
  /\ exists newReq s1,
       submitRequest_begin utcHost endpoint (js "id-1") 1709283600000 todayForm
       = (SubmitPushing newReq, s1)
       /\ id newReq = js "id-1".
Proof.
  split; [reflexivity|].
  destruct (pull_during_push utcHost endpoint (js "id-1") 1709283600000
              (Responded opaqueResponse)
              (rowsResponse [sampleRequest "r1" None false;
                             sampleRequest "r2" None true])
              (JObject [(js "rows",
                         JArray (map JSON_of_Request
                                   [sampleRequest "r1" None false;
                                    sampleRequest "r2" None true]))])
              [sampleRequest "r1" None false; sampleRequest "r2" None true]
              (Some (js "2024-03-01T00:00:00.000Z")) todayForm
              eq_refl eq_refl eq_refl eq_refl eq_refl eq_refl)
    as [newReq [s1 [B [I _]]]].
  exists newReq, s1. split; assumption.
Defined.

(* ================================================================== *)
(** * Pinning a card *)

Lemma filter_map_commute {A : Type} (P : A -> bool) (f : A -> A) (l : list A) :
  (forall x, P (f x) = P x) -> filter P (map f l) = map f (filter P l).
Proof.
  intros H. induction l as [|x l IH]; [reflexivity|].
  cbn [map filter]. rewrite H. destruct (P x); cbn [map]; rewrite IH; reflexivity.
Qed.

(** X22. With sort keys that order, pinning a card changes the order of the
    query and nothing else: the output holds the matching records of the
    collection, those of the card now pinned; it is the array every engine
    returns; and in it every record of the card stands before every
    unpinned record. *)
Theorem pin_moves_to_front (rt : Runtime) (i : jsstring) (s : State)
    (search statusFilter priorityFilter sort : jsstring) :
  forallb (keyed rt sort) (requests s) = true ->
  Permutation
    (filtered rt (requests (updateRequest i pinChange s))
       search statusFilter priorityFilter sort)
    (map (pinIf i)
       (filter (matchesFilter rt (trim (toLowerCase rt search))
                  statusFilter priorityFilter) (requests s)))
  /\ (forall out,
        SortResult (compareRequests rt sort)
          (filter (matchesFilter rt (trim (toLowerCase rt search))
                     statusFilter priorityFilter)
             (requests (updateRequest i pinChange s))) out ->
        out = filtered rt (requests (updateRequest i pinChange s))
                search statusFilter priorityFilter sort)
  /\ forall p q a b,
       nth_error (filtered rt (requests (updateRequest i pinChange s))
                    search statusFilter priorityFilter sort) p = Some a ->
       nth_error (filtered rt (requests (updateRequest i pinChange s))
                    search statusFilter priorityFilter sort) q = Some b ->
       id a = i -> pinned b = false -> (p < q)%nat.
Proof.
  intros K.
  assert (U : requests (updateRequest i pinChange s) = map (pinIf i) (requests s))
    by reflexivity.
  rewrite U. clear U.
  assert (F : filter (matchesFilter rt (trim (toLowerCase rt search))
                        statusFilter priorityFilter) (map (pinIf i) (requests s))
              = map (pinIf i)
                  (filter (matchesFilter rt (trim (toLowerCase rt search))
                             statusFilter priorityFilter) (requests s))).
  { apply filter_map_commute. intros r. unfold pinIf.
    destruct (streq (id r) i); reflexivity. }
  assert (P : Permutation
                (filtered rt (map (pinIf i) (requests s))
                   search statusFilter priorityFilter sort)
                (map (pinIf i)
                   (filter (matchesFilter rt (trim (toLowerCase rt search))
                              statusFilter priorityFilter) (requests s)))).
  { unfold filtered, sortRequests. cbv zeta. rewrite F.
    symmetry. apply Array_sort_perm. }
  split; [exact P|]. split.
  - intros out R. unfold filtered. cbv zeta.
    assert (K' : forallb (keyed rt sort)
                   (filter (matchesFilter rt (trim (toLowerCase rt search))
                              statusFilter priorityFilter)
                      (map (pinIf i) (requests s))) = true).
    { rewrite F. apply forallb_forall. intros r Hr.
      apply in_map_iff in Hr. destruct Hr as [r0 [<- Hr0]].
      apply filter_In in Hr0. destruct Hr0 as [Hr0 _].
      rewrite forallb_forall in K. specialize (K r0 Hr0).
      unfold pinIf. destruct (streq (id r0) i); exact K. }
    exact (proj2 (sortRequests_conforming rt sort _ K') out R).
  - intros p q a b Ha Hb Ia Pb.
    assert (Pa : pinned a = true).
    { apply nth_error_In in Ha. apply (Permutation_in _ P) in Ha.
      apply in_map_iff in Ha. destruct Ha as [r [Hr _]].
      unfold pinIf in Hr. destruct (streq (id r) i) eqn:E.
      - rewrite <- Hr. reflexivity.
      - rewrite <- Hr in Ia. rewrite Ia, streq_refl in E. discriminate. }
    exact (sortRequests_pinnedFirst rt sort _ p q a b Ha Hb Pa Pb).
Qed.

(** X22 at the sample of due dates: the record [c], pinned, comes first. *)
Lemma pin_moves_to_front_witness :
  map id (filtered utcHost (requests dueStore) [] (js "All") (js "All") (js "due"))
  = [js "e"; js "d"; js "c"; js "a"; js "b"]
  /\ map id (filtered utcHost (requests (updateRequest (js "c") pinChange dueStore))
               [] (js "All") (js "All") (js "due"))
     = [js "c"; js "e"; js "d"; js "a"; js "b"]
  /\ Permutation
       (filtered utcHost (requests (updateRequest (js "c") pinChange dueStore))
          [] (js "All") (js "All") (js "due"))
       (map (pinIf (js "c"))
          (filter (matchesFilter utcHost (trim (toLowerCase utcHost []))
                     (js "All") (js "All")) (requests dueStore))).
Proof.
  split; [reflexivity|]. split; [reflexivity|].
  apply (pin_moves_to_front utcHost (js "c") dueStore [] (js "All") (js "All") (js "due")).
  reflexivity.
Defined.

(* ================================================================== *)
(** * The retry badge *)

(** X23. The retry badge follows the pushes.  Without an endpoint no card
    ever shows it.  With one, the record of a submission shows it when the
    push was rejected and not when the push resolved; a retry that
    resolves takes it off every record of that id, and a retry that is
    rejected leaves every badge as it was. *)
Theorem retry_badge_follows_pushes (rt : Runtime) (SHEETS_ENDPOINT newId : jsstring)
    (now : Z) (due : option jsstring) (req : Request) (res : Response) (s : State) :
  (nonEmpty SHEETS_ENDPOINT = false -> forall r, showRetry SHEETS_ENDPOINT r = false)
  /\ (nonEmpty SHEETS_ENDPOINT = true ->
      (nonEmpty (trim (formName s)) = true ->
       nonEmpty (trim (formDesc s)) = true ->
       dueOfForm rt (formDue s) = Some due ->
       map (showRetry SHEETS_ENDPOINT)
         (firstn 1 (requests (submitRequest rt SHEETS_ENDPOINT newId now NetworkError s)))
       = [true]
       /\ map (showRetry SHEETS_ENDPOINT)
            (firstn 1 (requests (submitRequest rt SHEETS_ENDPOINT newId now
                                   (Responded res) s)))
          = [false])
      /\ Forall (fun r => id r = id req -> showRetry SHEETS_ENDPOINT r = false)
           (requests (retrySync SHEETS_ENDPOINT req (Responded res) s))
      /\ map (showRetry SHEETS_ENDPOINT)
           (requests (retrySync SHEETS_ENDPOINT req NetworkError s))
         = map (showRetry SHEETS_ENDPOINT) (requests s)).
Proof.
  split.
  { intros E r. unfold showRetry. rewrite E. apply andb_false_r. }
  intros E. split; [|split].
  - intros Hn Hd Hdue. unfold submitRequest.
    rewrite (submitRequest_begin_valid rt SHEETS_ENDPOINT newId now due s Hn Hd Hdue).
    cbv zeta. rewrite E. unfold submitRequest_settle. cbv zeta.
    cbn [requests setFormOpenMobile setLoadingSubmit setRequests pushToast setToasts
         setFormDue setFormDesc markSynced map firstn id newRequest].
    rewrite streq_refl. unfold showRetry. rewrite E. split; reflexivity.
  - unfold retrySync. rewrite E. cbn [negb].
    cbn [requests pushToast setToasts setRequests].
    eapply Forall_impl; [|apply (proj1 (markSynced_spec (id req) true (requests s)))].
    intros r H I. unfold showRetry. rewrite (H I). reflexivity.
  - unfold retrySync. rewrite E. reflexivity.
Qed.

(** X23 at a submission whose push is rejected. *)
Lemma retry_badge_follows_pushes_witness :
  map (showRetry endpoint)
    (requests (submitRequest utcHost endpoint (js "id-1") 1709283600000
                 NetworkError todayForm))
  = [true; false]
  /\ map (showRetry endpoint)
       (firstn 1 (requests (submitRequest utcHost endpoint (js "id-1") 1709283600000
                              NetworkError todayForm)))
     = [true].
Proof.
  split; [reflexivity|].
  apply (retry_badge_follows_pushes utcHost endpoint (js "id-1") 1709283600000
           (Some (js "2024-03-01T00:00:00.000Z")) noDue opaqueResponse todayForm);
    reflexivity.
Defined.
